(** * Data Science Tutor: the chat log, the prompt chain and the page script

    A shallow embedding of [app.py].  The script is a Streamlit page that is
    executed from top to bottom on every user interaction.  It keeps a table
    [chat] in an SQLite file, a per-tab [st.session_state], and a LangChain
    chain [chat_prompt | llm | out_parser] wrapped in
    [RunnableWithMessageHistory].

    What lives outside the script is modelled as follows.
    - SQLite: a table is the list of its rows in rowid order; [ORDER BY
      timestamp] is the engine's sorter, which keeps rows with equal keys in
      scan order; [CURRENT_TIMESTAMP] is read from the environment.
    - LangChain: [SQLChatMessageHistory] keeps its messages in a table of its
      own ([message_store]) of the same file; [RunnableWithMessageHistory]
      reads them before the chain runs and adds the new human/ai pair after
      the chain has returned.
    - Streamlit: widget values, [uuid4], the clocks and the hosted model are
      inputs of one script run; [st.rerun] and an uncaught exception end the
      run. *)

From Stdlib Require Import String Ascii List ZArith Bool Sorted Permutation Lia.
From Stdlib Require OrderedTypeEx.
Import ListNotations.
Local Open Scope string_scope.
Local Open Scope list_scope.

(** ** Text helpers *)

(** ["\n"] *)
Definition newline : string := String "010"%char EmptyString.

(** [str.upper] on the ASCII range: the roles this program stores are ASCII
    literals; other bytes are left as they are. *)
Definition upper_char (c : ascii) : ascii :=
  let n := nat_of_ascii c in
  if andb (Nat.leb 97 n) (Nat.leb n 122) then ascii_of_nat (n - 32) else c.

Fixpoint upper (s : string) : string :=
  match s with
  | EmptyString => EmptyString
  | String c s' => String (upper_char c) (upper s')
  end.

(** [sep.join(parts)] *)
Definition join (sep : string) (parts : list string) : string :=
  String.concat sep parts.

(** Truth value of a Python [str]: every string but the empty one. *)
Definition truthy (s : string) : bool := negb (s =? "").

(** ** The SQLite file [chat_history.db] *)

(** A row of [chat]:
    [id INTEGER PRIMARY KEY AUTOINCREMENT, session_id TEXT, role TEXT,
     content TEXT, timestamp DATETIME DEFAULT CURRENT_TIMESTAMP]. *)
Record ChatRow : Type := mkChatRow {
  row_id : Z;
  row_session_id : string;
  row_role : string;
  row_content : string;
  row_timestamp : string
}.

(** Messages of [langchain_core.messages]. *)
Inductive BaseMessage : Type :=
| SystemMessage (content : string)
| HumanMessage (content : string)
| AIMessage (content : string).

(** A row of [message_store], the table of [SQLChatMessageHistory]. *)
Record StoredMessage : Type := mkStoredMessage {
  stored_session_id : string;
  stored_message : BaseMessage
}.

Record Db : Type := mkDb {
  chat : list ChatRow;             (* rows of [chat], in rowid order *)
  sqlite_sequence : Z;             (* largest id AUTOINCREMENT has handed out *)
  message_store : list StoredMessage  (* rows of [message_store], in id order *)
}.

(** The file after [CREATE TABLE IF NOT EXISTS] on a fresh disk. *)
Definition empty_db : Db :=
  {| chat := []; sqlite_sequence := 0%Z; message_store := [] |}.

(** [INSERT INTO chat (session_id, role, content) VALUES (?, ?, ?)], with
    [now] the value of [CURRENT_TIMESTAMP] when the statement runs. *)
Definition insert_chat (now session_id role content : string) (d : Db) : Db :=
  let new_id := (sqlite_sequence d + 1)%Z in
  {| chat := chat d ++ [mkChatRow new_id session_id role content now];
     sqlite_sequence := new_id;
     message_store := message_store d |}.

(** [ORDER BY timestamp]: text keys compared bytewise; a row goes in front of
    the rows already placed whose key is not smaller. *)
Fixpoint insert_by_timestamp (r : ChatRow) (sorted : list ChatRow) : list ChatRow :=
  match sorted with
  | [] => [r]
  | r' :: rest =>
      if String.leb (row_timestamp r) (row_timestamp r')
      then r :: r' :: rest
      else r' :: insert_by_timestamp r rest
  end.

Definition order_by_timestamp (rows : list ChatRow) : list ChatRow :=
  fold_right insert_by_timestamp [] rows.

(** [... FROM chat WHERE session_id = ? ORDER BY timestamp], whole rows. *)
Definition select_chat (d : Db) (session_id : string) : list ChatRow :=
  order_by_timestamp
    (filter (fun r => row_session_id r =? session_id) (chat d)).

(** [SELECT role, content, timestamp] *)
Definition selected_columns (r : ChatRow) : string * string * string :=
  (row_role r, row_content r, row_timestamp r).

(** [load_chat_history(session_id)]: the result of [cursor.fetchall()]. *)
Definition load_chat_history (d : Db) (session_id : string)
  : list (string * string * string) :=
  map selected_columns (select_chat d session_id).

(** [SQLChatMessageHistory(session, ...).messages] *)
Definition history_messages (d : Db) (session : string) : list BaseMessage :=
  map stored_message
    (filter (fun m => stored_session_id m =? session) (message_store d)).

(** [SQLChatMessageHistory(session, ...).add_messages(msgs)] *)
Definition add_messages (session : string) (msgs : list BaseMessage) (d : Db) : Db :=
  {| chat := chat d;
     sqlite_sequence := sqlite_sequence d;
     message_store := message_store d ++ map (mkStoredMessage session) msgs |}.

(** ** The export text (lines 109-112) *)

(** [f"{row[0].upper()}[{row[2]}]: {row[1]}"] *)
Definition export_line (row : string * string * string) : string :=
  let '(role, content, timestamp) := row in
  (upper role ++ "[" ++ timestamp ++ "]: " ++ content)%string.

Definition export_text (chat_data : list (string * string * string)) : string :=
  join (newline ++ newline)%string (map export_line chat_data).

(** ** The prompt template (lines 141-151) *)

Definition system_instruction : string :=
  ("You are an AI assistant specialized in Data Science tutoring. " ++ newline ++
   "                      You will only answer questions related to Data Science. " ++ newline ++
   "                      Provide code examples with proper syntax highlighting when relevant." ++ newline ++
   "                      If asked anything outside this topic, politely decline and request a Data Science-related question." ++ newline ++
   "                   ")%string.

(** An entry of [ChatPromptTemplate(messages=[...])]. *)
Inductive MessageLike : Type :=
| RoleTemplate (role : string) (template : string)   (* [(role, template)] *)
| MessagesPlaceholder (variable_name : string) (optional : bool).

(** The input of the chain: the keys [prompt] and [history]. *)
Record ChainInput : Type := mkChainInput {
  input_prompt : string;
  input_history : option (list BaseMessage)
}.

Definition string_variable (i : ChainInput) (name : string) : option string :=
  if name =? "prompt" then Some (input_prompt i) else None.

Definition messages_variable (i : ChainInput) (name : string)
  : option (list BaseMessage) :=
  if name =? "history" then input_history i else None.

(** f-string templates: [{name}] is replaced by the variable, [{{] and [}}]
    stand for a brace.  [None] is the [KeyError] or [ValueError] that
    [str.format] raises. *)
Fixpoint read_field (s : string) : option (string * string) :=
  match s with
  | EmptyString => None
  | String "}" rest => Some (EmptyString, rest)
  | String c rest =>
      match read_field rest with
      | Some (name, rest') => Some (String c name, rest')
      | None => None
      end
  end.

Fixpoint format_template (fuel : nat) (vars : string -> option string)
  (s : string) : option string :=
  match fuel with
  | O => None
  | S fuel' =>
      match s with
      | EmptyString => Some EmptyString
      | String "{" (String "{" rest) =>
          option_map (String "{") (format_template fuel' vars rest)
      | String "}" (String "}" rest) =>
          option_map (String "}") (format_template fuel' vars rest)
      | String "}" _ => None
      | String "{" rest =>
          match read_field rest with
          | Some (name, rest') =>
              match vars name, format_template fuel' vars rest' with
              | Some v, Some out => Some (v ++ out)%string
              | _, _ => None
              end
          | None => None
          end
      | String c rest => option_map (String c) (format_template fuel' vars rest)
      end
  end.

Definition format (vars : string -> option string) (s : string) : option string :=
  format_template (S (String.length s)) vars s.

(** The message class a role string of a [(role, template)] pair selects. *)
Definition message_of_role (role content : string) : option BaseMessage :=
  if role =? "system" then Some (SystemMessage content)
  else if (role =? "human") || (role =? "user") then Some (HumanMessage content)
  else if (role =? "ai") || (role =? "assistant") then Some (AIMessage content)
  else None.

Definition format_message_like (i : ChainInput) (m : MessageLike)
  : option (list BaseMessage) :=
  match m with
  | RoleTemplate role template =>
      match format (string_variable i) template with
      | Some content => option_map (fun x => [x]) (message_of_role role content)
      | None => None
      end
  | MessagesPlaceholder name optional =>
      match messages_variable i name with
      | Some msgs => Some msgs
      | None => if optional then Some [] else None
      end
  end.

(** [ChatPromptTemplate.format_messages] *)
Fixpoint format_messages (template : list MessageLike) (i : ChainInput)
  : option (list BaseMessage) :=
  match template with
  | [] => Some []
  | m :: rest =>
      match format_message_like i m, format_messages rest i with
      | Some ms, Some ms' => Some (ms ++ ms')
      | _, _ => None
      end
  end.

(** The template of lines 141-151 around a system text. *)
Definition chat_prompt_with (system : string) : list MessageLike :=
  [ RoleTemplate "system" system;
    MessagesPlaceholder "history" true;
    RoleTemplate "human" "{prompt}" ].

Definition chat_prompt : list MessageLike :=
  chat_prompt_with system_instruction.

(** ** One script run *)

Inductive Exception : Type :=
| UpstreamError (reason : string)   (* the hosted model call failed *)
| AttributeError (name : string)    (* a missing [st.session_state] entry *)
| TemplateError.                    (* [format_messages] failed *)

(** [st.session_state]: the entries [session_id] and [messages]. *)
Record SessionState : Type := mkSessionState {
  session_id : option string;
  messages : option (list (string * string * string))
}.

(** What a run puts on the page. *)
Inductive Element : Type :=
| ChatMessage (role content timestamp : string)    (* lines 172-185 *)
| DownloadButton (label data file_name mime : string)
| ExceptionBox (e : Exception).  (* Streamlit's display of an uncaught exception *)

Record World : Type := mkWorld {
  db : Db;
  session_state : SessionState;
  page : list Element;
  llm_calls : list (list BaseMessage)   (* prompts sent to the hosted model *)
}.

(** The inputs of one run: widget values and the answers of the outside. *)
Record Env : Type := mkEnv {
  new_chat_button : bool;
  export_button : bool;
  submit_button : bool;
  user_input : string;
  uuid4_first : string;          (* [uuid.uuid4()] at line 53 *)
  uuid4_new_chat : string;       (* [uuid.uuid4()] at line 104 *)
  timestamp_user : string;       (* [CURRENT_TIMESTAMP] at line 197 *)
  timestamp_assistant : string;  (* [CURRENT_TIMESTAMP] at line 203 *)
  strftime_user : string;        (* [time.strftime] at line 198 *)
  strftime_assistant : string;   (* [time.strftime] at line 204 *)
  llm : list BaseMessage -> string + Exception   (* [llm | out_parser] *)
}.

Inductive Outcome (A : Type) : Type :=
| Done (a : A)
| Rerun                 (* [st.rerun()] *)
| Raised (e : Exception).
Arguments Done {A} a.
Arguments Rerun {A}.
Arguments Raised {A} e.

(** Statements of the script: they read and write the world and may leave
    the run. What was written before stays written. *)
Definition Script (A : Type) : Type := World -> Outcome A * World.

Definition ret {A} (a : A) : Script A := fun w => (Done a, w).

Definition bind {A B} (m : Script A) (f : A -> Script B) : Script B :=
  fun w =>
    match m w with
    | (Done a, w') => f a w'
    | (Rerun, w') => (Rerun, w')
    | (Raised e, w') => (Raised e, w')
    end.

Notation "x <- c1 ;; c2" := (bind c1 (fun x => c2))
  (at level 61, c1 at next level, right associativity).
Notation "c1 ;; c2" := (bind c1 (fun _ => c2))
  (at level 61, right associativity).

Definition raise {A} (e : Exception) : Script A := fun w => (Raised e, w).
Definition st_rerun {A} : Script A := fun w => (Rerun, w).
Definition when (b : bool) (s : Script unit) : Script unit :=
  if b then s else ret tt.

Definition get_db : Script Db := fun w => (Done (db w), w).
Definition modify_db (f : Db -> Db) : Script unit :=
  fun w => (Done tt, mkWorld (f (db w)) (session_state w) (page w) (llm_calls w)).
Definition get_session_state : Script SessionState :=
  fun w => (Done (session_state w), w).
Definition put_session_state (s : SessionState) : Script unit :=
  fun w => (Done tt, mkWorld (db w) s (page w) (llm_calls w)).
Definition show (e : Element) : Script unit :=
  fun w => (Done tt, mkWorld (db w) (session_state w) (page w ++ [e]) (llm_calls w)).
Definition record_call (p : list BaseMessage) : Script unit :=
  fun w => (Done tt, mkWorld (db w) (session_state w) (page w) (llm_calls w ++ [p])).

(** [save_message(session_id, role, content)] (lines 33-36) *)
Definition save_message (now sid role content : string) : Script unit :=
  modify_db (insert_chat now sid role content).

(** [st.session_state.session_id = ...] *)
Definition set_session_id (sid : string) : Script unit :=
  s <- get_session_state ;;
  put_session_state (mkSessionState (Some sid) (messages s)).

(** [st.session_state.messages = ...] *)
Definition set_messages (ms : list (string * string * string)) : Script unit :=
  s <- get_session_state ;;
  put_session_state (mkSessionState (session_id s) (Some ms)).

(** [st.session_state.session_id] *)
Definition current_session_id : Script string :=
  s <- get_session_state ;;
  match session_id s with
  | Some sid => ret sid
  | None => raise (AttributeError "session_id")
  end.

(** [st.session_state.messages] *)
Definition current_messages : Script (list (string * string * string)) :=
  s <- get_session_state ;;
  match messages s with
  | Some ms => ret ms
  | None => raise (AttributeError "messages")
  end.

(** [st.session_state.messages.append(m)] *)
Definition messages_append (m : string * string * string) : Script unit :=
  ms <- current_messages ;;
  set_messages (ms ++ [m]).

(** [chat.invoke({'prompt': input}, config)] (lines 155-161, 201):
    the stored messages of the session become [history], the chain runs,
    and only when it has returned are the new pair of messages stored. *)
Definition chat_invoke (env : Env) (input session : string) : Script string :=
  d <- get_db ;;
  match format_messages chat_prompt
          (mkChainInput input (Some (history_messages d session))) with
  | None => raise TemplateError
  | Some prompt_value =>
      record_call prompt_value ;;
      match llm env prompt_value with
      | inl response =>
          modify_db (add_messages session [HumanMessage input; AIMessage response]) ;;
          ret response
      | inr e => raise e
      end
  end.

(** Lines 52-53 *)
Definition init_session_id (env : Env) : Script unit :=
  s <- get_session_state ;;
  match session_id s with
  | None => set_session_id (uuid4_first env)
  | Some _ => ret tt
  end.

(** Lines 103-106 *)
Definition new_chat (env : Env) : Script unit :=
  set_session_id (uuid4_new_chat env) ;;
  set_messages [] ;;
  st_rerun.

(** Lines 109-118 *)
Definition export_chat : Script unit :=
  sid <- current_session_id ;;
  d <- get_db ;;
  let chat_data := load_chat_history d sid in
  show (DownloadButton "Download Chat" (export_text chat_data)
          ("chat_" ++ sid ++ ".txt")%string "text/plain").

(** Lines 167-168 *)
Definition init_messages (sid : string) : Script unit :=
  s <- get_session_state ;;
  match messages s with
  | None => d <- get_db ;; set_messages (load_chat_history d sid)
  | Some _ => ret tt
  end.

(** Lines 170-185; how the content is cut at code fences is left to the
    element. *)
Fixpoint show_messages (ms : list (string * string * string)) : Script unit :=
  match ms with
  | [] => ret tt
  | (role, content, timestamp) :: rest =>
      show (ChatMessage role content timestamp) ;;
      show_messages rest
  end.

(** Lines 196-205 *)
Definition process_user_input (env : Env) (sid : string) : Script unit :=
  save_message (timestamp_user env) sid "user" (user_input env) ;;
  messages_append ("user", user_input env, strftime_user env) ;;
  response <- chat_invoke env (user_input env) sid ;;
  save_message (timestamp_assistant env) sid "assistant" response ;;
  messages_append ("assistant", response, strftime_assistant env) ;;
  st_rerun.

(** The script, top to bottom. *)
Definition script (env : Env) : Script unit :=
  init_session_id env ;;
  when (new_chat_button env) (new_chat env) ;;
  when (export_button env) export_chat ;;
  sid <- current_session_id ;;
  init_messages sid ;;
  ms <- current_messages ;;
  show_messages ms ;;
  when (submit_button env && truthy (user_input env))
       (process_user_input env sid).

(** ** Streamlit's script runner *)

(** The run that follows [st.rerun()] or a plain refresh: no button is
    pressed and the form is empty. *)
Definition quiet (env : Env) : Env :=
  mkEnv false false false "" (uuid4_first env) (uuid4_new_chat env)
        (timestamp_user env) (timestamp_assistant env)
        (strftime_user env) (strftime_assistant env) (llm env).

Definition fresh_page (w : World) : World :=
  mkWorld (db w) (session_state w) [] (llm_calls w).

(** An uncaught exception is shown on the page of the run that raised it. *)
Definition run_script (env : Env) (w : World) : Outcome unit * World :=
  match script env (fresh_page w) with
  | (Raised e, w') =>
      (Raised e, mkWorld (db w') (session_state w') (page w' ++ [ExceptionBox e])
                         (llm_calls w'))
  | r => r
  end.

(** One user interaction: the run it triggers and, when that run asks for
    it, the rerun. *)
Definition interaction (env : Env) (w : World) : Outcome unit * World :=
  match run_script env w with
  | (Rerun, w') => run_script (quiet env) w'
  | r => r
  end.

(** A first visit on a fresh disk. *)
Definition initial_world : World :=
  mkWorld empty_db (mkSessionState None None) [] [].

(** A sequence of interactions; the outcomes are kept, oldest first. *)
Fixpoint interactions (envs : list Env) (w : World)
  : list (Outcome unit) * World :=
  match envs with
  | [] => ([], w)
  | env :: rest =>
      let '(o, w') := interaction env w in
      let '(os, w'') := interactions rest w' in
      (o :: os, w'')
  end.

(** ** Orders, invariants and the runs the properties speak of *)

(** "a before b" for [ORDER BY timestamp] keys. *)
Definition timestamp_le (a b : ChatRow) : Prop :=
  String.leb (row_timestamp a) (row_timestamp b) = true.

(** Earlier timestamp first, and among equal timestamps the smaller id. *)
Definition by_timestamp_then_id (a b : ChatRow) : Prop :=
  String.compare (row_timestamp a) (row_timestamp b) = Lt \/
  (row_timestamp a = row_timestamp b /\ (row_id a < row_id b)%Z).

(** What AUTOINCREMENT keeps true of [chat]: ids grow along the table and
    none is above the recorded sequence value. *)
Definition well_formed (d : Db) : Prop :=
  StronglySorted (fun a b => (row_id a < row_id b)%Z) (chat d) /\
  Forall (fun r => (row_id r <= sqlite_sequence d)%Z) (chat d).

(** [N] calls of [save_message] for one session; a turn is given with the
    timestamp the store assigned to it. *)
Definition append_turns (sid : string) (turns : list (string * string * string))
  (d : Db) : Db :=
  fold_left
    (fun acc '(role, content, now) => insert_chat now sid role content acc)
    turns d.

Definition turn_timestamp (t : string * string * string) : string := snd t.

(** Text without [{] and [}]: as a template it has no field. *)
Fixpoint brace_free (s : string) : bool :=
  match s with
  | EmptyString => true
  | String c s' =>
      negb (Ascii.eqb c "{") && negb (Ascii.eqb c "}") && brace_free s'
  end.

(** The document of section 6 of the specification, in its words: one
    paragraph [ROLE[timestamp]: content] per turn, a blank line between
    two turns. *)
Definition spec_paragraph (turn : string * string * string) : string :=
  (upper (fst (fst turn)) ++ "[" ++ snd turn ++ "]: " ++ snd (fst turn))%string.

Fixpoint spec_export_document (turns : list (string * string * string)) : string :=
  match turns with
  | [] => ""
  | [t] => spec_paragraph t
  | t :: rest =>
      (spec_paragraph t ++ newline ++ newline ++ spec_export_document rest)%string
  end.

Definition element_of (m : string * string * string) : Element :=
  let '(role, content, timestamp) := m in ChatMessage role content timestamp.

(** The session the run works for: the stored one, or the one line 53
    creates. *)
Definition active_session (env : Env) (w : World) : string :=
  match session_id (session_state w) with
  | Some sid => sid
  | None => uuid4_first env
  end.

(** The messages the run displays: the stored list, or the one line 168
    loads. *)
Definition shown_messages (env : Env) (w : World) : list (string * string * string) :=
  match messages (session_state w) with
  | Some ms => ms
  | None => load_chat_history (db w) (active_session env w)
  end.

(** The page once the sidebar and the chat container are drawn. *)
Definition drawn_page (env : Env) (w : World) : list Element :=
  (if export_button env
   then page w ++
        [DownloadButton "Download Chat"
           (export_text (load_chat_history (db w) (active_session env w)))
           ("chat_" ++ active_session env w ++ ".txt")%string "text/plain"]
   else page w) ++ map element_of (shown_messages env w).

(** The prompt the chain sends for [input] when the file is [d]. *)
Definition prompt_for (d : Db) (sid input : string) : list BaseMessage :=
  SystemMessage system_instruction :: history_messages d sid ++ [HumanMessage input].

Definition user_turn (env : Env) : string * string * string :=
  ("user", user_input env, strftime_user env).

Definition assistant_turn (env : Env) (response : string) : string * string * string :=
  ("assistant", response, strftime_assistant env).

(** The world in which lines 196-205 start. *)
Definition drawn_world (env : Env) (w : World) : World :=
  mkWorld (db w)
          (mkSessionState (Some (active_session env w)) (Some (shown_messages env w)))
          (drawn_page env w) (llm_calls w).

(** The file when line 201 runs, and the file after line 203. *)
Definition file_at_invoke (env : Env) (w : World) : Db :=
  insert_chat (timestamp_user env) (active_session env w) "user" (user_input env) (db w).

Definition file_after_answer (env : Env) (w : World) (response : string) : Db :=
  insert_chat (timestamp_assistant env) (active_session env w) "assistant" response
    (add_messages (active_session env w)
       [HumanMessage (user_input env); AIMessage response] (file_at_invoke env w)).

(** The prompt of a submission: the chain reads [message_store], which the
    insert of line 197 does not touch. *)
Definition sent_prompt (env : Env) (w : World) : list BaseMessage :=
  prompt_for (db w) (active_session env w) (user_input env).

Definition submits (env : Env) : Prop :=
  new_chat_button env = false /\ submit_button env = true /\ user_input env <> "".

(** The ways a run can go. *)
Inductive RunCase (env : Env) (w : World) : Prop :=
| case_new_chat : new_chat_button env = true -> RunCase env w
| case_idle :
    new_chat_button env = false ->
    submit_button env && truthy (user_input env) = false -> RunCase env w
| case_answered response :
    submits env -> llm env (sent_prompt env w) = inl response -> RunCase env w
| case_failed e :
    submits env -> llm env (sent_prompt env w) = inr e -> RunCase env w.

Definition two_turns : list (string * string * string) :=
  [("user", "Hi", "2024-01-01 00:00:00");
   ("assistant", "Hello", "2024-01-01 00:00:01")].

(** Three turns written within one second, and one written after the clock
    was set back. *)
Definition tied_db : Db :=
  insert_chat "2024-01-01 00:00:00" "s" "user" "late"
    (append_turns "s"
       [("user", "a", "2024-01-01 00:00:05");
        ("assistant", "b", "2024-01-01 00:00:05");
        ("user", "c", "2024-01-01 00:00:05")] empty_db).

Definition two_turns_text : string :=
  ("USER[2024-01-01 00:00:00]: Hi" ++ newline ++ newline ++
   "ASSISTANT[2024-01-01 00:00:01]: Hello")%string.

Definition two_turns_world : World :=
  mkWorld (append_turns "s" two_turns empty_db)
          (mkSessionState (Some "s") None) [] [].

(** The rows lines 197 and 203 insert. *)
Definition user_row (env : Env) (w : World) : ChatRow :=
  mkChatRow (sqlite_sequence (db w) + 1) (active_session env w)
            "user" (user_input env) (timestamp_user env).

Definition assistant_row (env : Env) (w : World) (response : string) : ChatRow :=
  mkChatRow (sqlite_sequence (db w) + 1 + 1) (active_session env w)
            "assistant" response (timestamp_assistant env).

(** Blank text: only space, tab, line feed, vertical tab, form feed or
    carriage return (or nothing at all). *)
Definition whitespace (c : ascii) : bool :=
  existsb (Nat.eqb (nat_of_ascii c)) [9; 10; 11; 12; 13; 32].

Fixpoint blank (s : string) : bool :=
  match s with
  | EmptyString => true
  | String c s' => whitespace c && blank s'
  end.

(** A visitor who types one space and presses Send while the model answers. *)
Definition space_env : Env :=
  mkEnv false false true " " "session-1" "session-2"
        "2024-01-01 00:00:00" "2024-01-01 00:00:01"
        "2024-01-01 01:00:00" "2024-01-01 01:00:01"
        (fun _ => inl "Please ask a Data Science question.").

Definition empty_env : Env :=
  mkEnv false false true "" "session-1" "session-2"
        "2024-01-01 00:00:00" "2024-01-01 00:00:01"
        "2024-01-01 01:00:00" "2024-01-01 01:00:01"
        (fun _ => inl "Please ask a Data Science question.").

Definition hi_env : Env :=
  mkEnv false false true "Hi" "session-1" "session-2"
        "2024-01-01 00:00:00" "2024-01-01 00:00:01"
        "2024-01-01 01:00:00" "2024-01-01 01:00:01"
        (fun _ => inl "Hello").

Definition new_chat_env : Env :=
  mkEnv true false false "" "session-1" "session-2"
        "2024-01-01 00:10:00" "2024-01-01 00:10:01"
        "2024-01-01 01:10:00" "2024-01-01 01:10:01"
        (fun _ => inl "unused").

(** The page tells of a failure when it holds Streamlit's exception box. *)
Definition failure_indicated (pg : list Element) : Prop :=
  exists e, In (ExceptionBox e) pg.

(** The last stored turn of the session is a user turn: a question without
    an answer. *)
Definition unanswered_user_turn (d : Db) (sid : string) : Prop :=
  exists earlier r, select_chat d sid = earlier ++ [r] /\ row_role r = "user".

(** The page of the next run of the script, nothing pressed. *)
Definition redisplay (env : Env) (w : World) : list Element :=
  page (snd (run_script (quiet env) w)).

(** A visitor asks "Hi" while the hosted model is unreachable. *)
Definition failing_env : Env :=
  mkEnv false false true "Hi" "session-1" "session-2"
        "2024-01-01 00:00:00" "2024-01-01 00:00:01"
        "2024-01-01 01:00:00" "2024-01-01 01:00:01"
        (fun _ => inr (UpstreamError "503")).

(** Role and content of a message, in the vocabulary of the [chat] table. *)
Definition role_content (m : BaseMessage) : string * string :=
  match m with
  | SystemMessage c => ("system", c)
  | HumanMessage c => ("user", c)
  | AIMessage c => ("assistant", c)
  end.

(** The History Adapter of section 4.3 of the specification, in its words:
    the rows of load, timestamp dropped, nothing left out. *)
Definition spec_to_prompt_messages (d : Db) (sid : string) : list (string * string) :=
  map (fun turn => (fst (fst turn), snd (fst turn))) (load_chat_history d sid).

Definition session_rows (d : Db) (sid : string) : list ChatRow :=
  filter (fun r => row_session_id r =? sid) (chat d).

(** For every session the chain's history and the session's rows of [chat],
    taken in the order they were written, tell the same turns. *)
Definition tables_agree (d : Db) : Prop :=
  forall sid,
    map role_content (history_messages d sid) =
    map (fun r => (row_role r, row_content r)) (session_rows d sid).

Definition not_raised (o : Outcome unit) : Prop := forall e, o <> Raised e.

(** The visitor of [failing_env] asks again. *)
Definition again_env : Env :=
  mkEnv false false true "Again" "session-1" "session-2"
        "2024-01-01 00:05:00" "2024-01-01 00:05:01"
        "2024-01-01 01:05:00" "2024-01-01 01:05:01"
        (fun _ => inl "Hello").

Definition world_after_failure : World :=
  snd (interaction failing_env initial_world).

(** ** The chat container (lines 170-185) and the title (lines 121-134) *)

Definition double_quote : string := String "034"%char EmptyString.

(** The separator of line 175. *)
Definition fence : string := "```".

Definition is_fence (a b c : ascii) : bool :=
  Ascii.eqb a "`" && Ascii.eqb b "`" && Ascii.eqb c "`".

(** ["```" in content] *)
Fixpoint contains_fence (s : string) : bool :=
  match s with
  | EmptyString => false
  | String a s1 =>
      match s1 with
      | String b (String c _) => is_fence a b c || contains_fence s1
      | _ => false
      end
  end.

(** A character read before the next separator belongs to the part being
    read. *)
Definition extend_first (a : ascii) (parts : list string) : list string :=
  match parts with
  | [] => [String a EmptyString]
  | p :: ps => String a p :: ps
  end.

(** [content.split("```")]: cut at every separator, leftmost first. *)
Fixpoint split_fence (s : string) : list string :=
  match s with
  | EmptyString => [EmptyString]
  | String a s1 =>
      match s1 with
      | String b (String c rest) =>
          if is_fence a b c then EmptyString :: split_fence rest
          else extend_first a (split_fence s1)
      | _ => extend_first a (split_fence s1)
      end
  end.

(** A call of [st.markdown]. *)
Inductive Markdown : Type :=
| st_markdown (body : string) (unsafe_allow_html : bool).

(** [f'<div class="code-block">{part}</div>'] *)
Definition code_block (part : string) : Markdown :=
  st_markdown ("<div class=" ++ double_quote ++ "code-block" ++ double_quote ++ ">"
               ++ part ++ "</div>")%string true.

(** [f'<div class="timestamp">{timestamp}</div>'] *)
Definition timestamp_block (timestamp : string) : Markdown :=
  st_markdown ("<div class=" ++ double_quote ++ "timestamp" ++ double_quote ++ ">"
               ++ timestamp ++ "</div>")%string true.

(** [for i, part in enumerate(parts)] (lines 176-181), from index [i] on. *)
Fixpoint show_parts (i : nat) (parts : list string) : list Markdown :=
  match parts with
  | [] => []
  | part :: rest =>
      (if Nat.eqb (Nat.modulo i 2) 0 then st_markdown part false else code_block part)
      :: show_parts (S i) rest
  end.

(** What is drawn inside [st.chat_message(role)] (lines 173-185). *)
Definition chat_message_body (content timestamp : string) : list Markdown :=
  (if contains_fence content
   then show_parts 0 (split_fence content)
   else [st_markdown content false])
  ++ [timestamp_block timestamp].

(** The rocket of line 128, as its four UTF-8 bytes. *)
Definition rocket : string :=
  String "240"%char (String "159"%char (String "154"%char (String "128"%char EmptyString))).

(** [theme] is the value of the select box of line 88. *)
Definition title_color (theme : string) : string :=
  if theme =? "Light" then "#00D1FF" else "#FFD700".

(** The f-string of lines 126-130. *)
Definition title_html (theme displayed_text : string) : string :=
  (newline ++
   "            <h1 class=" ++ double_quote ++ "title-text" ++ double_quote ++
   " style=" ++ double_quote ++ "color: " ++ title_color theme ++ double_quote ++ ">" ++ newline ++
   "                " ++ displayed_text ++ " " ++ rocket ++ newline ++
   "            </h1>" ++ newline ++
   "        ")%string.

(** What [animated_text] does to the outside, in order. *)
Inductive TitleEvent : Type :=
| placeholder_markdown (html : string)
| time_sleep.

(** A Python [str] is a sequence of characters (code points); in the bytes
    of its UTF-8 form a character is a byte that is no continuation byte
    together with the continuation bytes that follow it. *)
Definition continuation (c : ascii) : bool :=
  Nat.leb 128 (nat_of_ascii c) && Nat.ltb (nat_of_ascii c) 192.

(** The characters of a text, what [for letter in text] walks through. *)
Fixpoint letters (s : string) : list string :=
  match s with
  | EmptyString => []
  | String c rest =>
      match rest with
      | EmptyString => [String c EmptyString]
      | String c' _ =>
          if continuation c' then extend_first c (letters rest)
          else String c EmptyString :: letters rest
      end
  end.

(** The text made of some characters. *)
Definition text_of (ls : list string) : string :=
  fold_right String.append EmptyString ls.

(** The loop of lines 124-131 with [displayed_text] as it stands and the
    letters still to come. *)
Fixpoint animate (theme displayed_text : string) (rest : list string)
  : list TitleEvent :=
  match rest with
  | [] => []
  | letter :: rest' =>
      let displayed_text' := (displayed_text ++ letter)%string in
      placeholder_markdown (title_html theme displayed_text')
      :: time_sleep
      :: animate theme displayed_text' rest'
  end.

(** [animated_text(text)] (lines 121-131) *)
Definition animated_text (theme text : string) : list TitleEvent :=
  animate theme EmptyString (letters text).

(** The contents the placeholder goes through. *)
Definition title_frames (events : list TitleEvent) : list string :=
  flat_map (fun e => match e with placeholder_markdown h => [h] | time_sleep => [] end)
           events.

(** ** Further notions the properties speak of *)

(** A row goes behind the placed rows that are not later than it. *)
Definition not_later (now : string) (r : ChatRow) : bool :=
  String.leb (row_timestamp r) now.

Fixpoint place_last (r : ChatRow) (sorted : list ChatRow) : list ChatRow :=
  match sorted with
  | [] => [r]
  | r' :: rest =>
      if not_later (row_timestamp r) r'
      then r' :: place_last r rest
      else r :: r' :: rest
  end.

(** The test of line 196, for a run in which New Chat is not pressed. *)
Definition submit_guard (env : Env) : bool :=
  negb (new_chat_button env) && submit_button env && truthy (user_input env).

(** A question and its answer as the chain stores them. *)
Definition exchange (qa : string * string) : list BaseMessage :=
  [HumanMessage (fst qa); AIMessage (snd qa)].

Definition turn_role_content (t : string * string * string) : string * string :=
  (fst (fst t), snd (fst t)).

Definition row_role_content (r : ChatRow) : string * string :=
  (row_role r, row_content r).

(** The message list of the session tells the turns its rows of [chat] tell,
    in the order they were written. *)
Definition messages_mirror_chat (w : World) : Prop :=
  forall ms, messages (session_state w) = Some ms ->
    exists sid, session_id (session_state w) = Some sid /\
      map turn_role_content ms = map row_role_content (session_rows (db w) sid).

(** The ids of [chat] are 1, 2, ... in the order of the rows, and the
    sequence value is the last of them. *)
Definition ids_consecutive (d : Db) : Prop :=
  map row_id (chat d) = map Z.of_nat (seq 1 (length (chat d))) /\
  sqlite_sequence d = Z.of_nat (length (chat d)).

(** Two visitors' questions, and a file that holds one answered question of
    each. *)
Definition other_env : Env :=
  mkEnv false false true "Bonjour" "session-9" "session-10"
        "2024-01-01 00:20:00" "2024-01-01 00:20:01"
        "2024-01-01 01:20:00" "2024-01-01 01:20:01"
        (fun _ => inl "Salut").

Definition second_visitor (w : World) : World :=
  mkWorld (db w) (mkSessionState None None) [] (llm_calls w).

Definition two_sessions_world : World :=
  snd (interaction other_env (second_visitor (snd (interaction hi_env initial_world)))).

(** Two turns of which the second was stamped by a clock set back. *)
Definition set_back_turns : list (string * string * string) :=
  [("user", "a", "2024-01-01 00:00:05");
   ("assistant", "b", "2024-01-01 00:00:00")].

(** A session whose two turns lie in the table with the later one first. *)
Definition later_first_world : World :=
  mkWorld (append_turns "s"
             [("assistant", "Hello", "2024-01-01 00:00:01");
              ("user", "Hi", "2024-01-01 00:00:00")] empty_db)
          (mkSessionState (Some "s") None) [] [].


(** * Properties of the chat table *)

Section ChatTable.

Lemma compare_lt_trans a b c :
  String.compare a b = Lt -> String.compare b c = Lt -> String.compare a c = Lt.
Proof.
  intros Hab Hbc.
  apply OrderedTypeEx.String_as_OT.cmp_lt in Hab.
  apply OrderedTypeEx.String_as_OT.cmp_lt in Hbc.
  apply OrderedTypeEx.String_as_OT.cmp_lt.
  eapply OrderedTypeEx.String_as_OT.lt_trans; eassumption.
Qed.

Lemma by_timestamp_then_id_trans a b c :
  by_timestamp_then_id a b -> by_timestamp_then_id b c -> by_timestamp_then_id a c.
Proof.
  unfold by_timestamp_then_id.
  intros [Hab | [Eab Iab]] [Hbc | [Ebc Ibc]].
  - left. eapply compare_lt_trans; eassumption.
  - left. rewrite <- Ebc. exact Hab.
  - left. rewrite Eab. exact Hbc.
  - right. split; [congruence | lia].
Qed.

(** The two branches of [insert_by_timestamp], read as order facts. *)
Lemma leb_true_cases a b :
  String.leb a b = true -> String.compare a b = Lt \/ a = b.
Proof.
  unfold String.leb. destruct (String.compare a b) eqn:E; intro H.
  - right. apply String.compare_eq_iff. exact E.
  - left. reflexivity.
  - discriminate.
Qed.

Lemma leb_false_gt a b :
  String.leb a b = false -> String.compare b a = Lt.
Proof.
  unfold String.leb. rewrite String.compare_antisym.
  destruct (String.compare b a); simpl; intro H; trivial; discriminate.
Qed.

Lemma insert_by_timestamp_In r l x :
  In x (insert_by_timestamp r l) <-> x = r \/ In x l.
Proof.
  induction l as [| y l IH]; simpl.
  - intuition.
  - destruct (String.leb (row_timestamp r) (row_timestamp y)); simpl.
    + intuition.
    + rewrite IH. intuition.
Qed.

Lemma order_by_timestamp_In l x :
  In x (order_by_timestamp l) <-> In x l.
Proof.
  induction l as [| y l IH]; simpl.
  - reflexivity.
  - rewrite insert_by_timestamp_In, IH. intuition.
Qed.

Lemma insert_by_timestamp_length r l :
  length (insert_by_timestamp r l) = S (length l).
Proof.
  induction l as [| y l IH]; simpl; trivial.
  destruct (String.leb _ _); simpl; congruence.
Qed.

Lemma order_by_timestamp_length l :
  length (order_by_timestamp l) = length l.
Proof.
  induction l as [| y l IH]; simpl; trivial.
  rewrite insert_by_timestamp_length. congruence.
Qed.

(** Rows that already come with ascending timestamps are left in place. *)
Lemma order_by_timestamp_ascending l :
  Sorted timestamp_le l -> order_by_timestamp l = l.
Proof.
  induction 1 as [| r l Hs IH Hd]; simpl; trivial.
  rewrite IH. destruct Hd as [| y l Hry]; simpl; trivial.
  unfold timestamp_le in Hry. rewrite Hry. reflexivity.
Qed.

(** Placing a row whose id is below every id already placed. *)
Lemma insert_by_timestamp_sorted r l :
  Sorted by_timestamp_then_id l ->
  Forall (fun x => (row_id r < row_id x)%Z) l ->
  Sorted by_timestamp_then_id (insert_by_timestamp r l).
Proof.
  induction 1 as [| y l Hs IH Hd]; intros Hid; simpl.
  - constructor; constructor.
  - inversion Hid as [| ? ? Hry Hrl]; subst.
    destruct (String.leb (row_timestamp r) (row_timestamp y)) eqn:E.
    + constructor; [constructor; assumption |].
      constructor. apply leb_true_cases in E. destruct E as [E | E].
      * left; exact E.
      * right; split; assumption.
    + constructor; [apply IH; assumption |].
      apply leb_false_gt in E.
      destruct l as [| z l]; simpl.
      * constructor. left; exact E.
      * destruct (String.leb (row_timestamp r) (row_timestamp z)).
        -- constructor. left; exact E.
        -- constructor. inversion Hd; assumption.
Qed.

Lemma order_by_timestamp_sorted l :
  StronglySorted (fun a b => (row_id a < row_id b)%Z) l ->
  Sorted by_timestamp_then_id (order_by_timestamp l).
Proof.
  induction 1 as [| r l Hs IH Hr]; simpl.
  - constructor.
  - apply insert_by_timestamp_sorted; [exact IH |].
    apply Forall_forall. intros x Hx.
    rewrite Forall_forall in Hr. apply Hr.
    apply (proj1 (order_by_timestamp_In l x)). exact Hx.
Qed.

Lemma filter_StronglySorted {A} (R : A -> A -> Prop) (f : A -> bool) l :
  StronglySorted R l -> StronglySorted R (filter f l).
Proof.
  induction 1 as [| x l Hs IH Hx]; simpl.
  - constructor.
  - destruct (f x); [| exact IH].
    constructor; [exact IH |].
    apply Forall_forall. intros y Hy. apply filter_In in Hy.
    rewrite Forall_forall in Hx. apply Hx. tauto.
Qed.

Lemma filter_none {A} (f : A -> bool) l :
  (forall x, In x l -> f x = false) -> filter f l = [].
Proof.
  induction l as [| x l IH]; simpl; intros H; trivial.
  rewrite (H x (or_introl eq_refl)). apply IH. intros; apply H; now right.
Qed.

(** The table keeps its shape under every insert. *)
Lemma well_formed_empty : well_formed empty_db.
Proof. split; constructor. Qed.

Lemma StronglySorted_snoc {A} (R : A -> A -> Prop) l x :
  StronglySorted R l -> Forall (fun y => R y x) l -> StronglySorted R (l ++ [x]).
Proof.
  induction 1 as [| y l Hs IH Hy]; intros Hx; simpl.
  - constructor; constructor.
  - inversion Hx; subst. constructor; [auto |].
    apply Forall_app. split; [assumption | constructor; [assumption | constructor]].
Qed.

Lemma well_formed_insert_chat now sid role content d :
  well_formed d -> well_formed (insert_chat now sid role content d).
Proof.
  intros [Hs Hb]. split; simpl.
  - apply StronglySorted_snoc; [exact Hs |].
    eapply Forall_impl; [| exact Hb]. simpl. intros; lia.
  - apply Forall_app. split.
    + eapply Forall_impl; [| exact Hb]. simpl. intros; lia.
    + constructor; [simpl; lia | constructor].
Qed.

Lemma well_formed_add_messages sid msgs d :
  well_formed d -> well_formed (add_messages sid msgs d).
Proof. intros H; exact H. Qed.

Lemma chat_append_turns sid turns d :
  exists rows,
    chat (append_turns sid turns d) = chat d ++ rows /\
    map selected_columns rows = turns /\
    Forall (fun r => row_session_id r = sid) rows.
Proof.
  revert d. induction turns as [| [[role content] now] turns IH]; intros d.
  - exists []. simpl. rewrite app_nil_r. repeat split. constructor.
  - change (append_turns sid ((role, content, now) :: turns) d)
      with (append_turns sid turns (insert_chat now sid role content d)).
    destruct (IH (insert_chat now sid role content d)) as (rows & Hc & Hm & Hs).
    exists (mkChatRow (sqlite_sequence d + 1) sid role content now :: rows).
    rewrite Hc. simpl. rewrite <- app_assoc. simpl.
    repeat split.
    + unfold selected_columns at 1. simpl. now rewrite Hm.
    + constructor; [reflexivity | exact Hs].
Qed.

End ChatTable.

(** * Properties of the prompt template and of the export text *)

Section Prompt.

Lemma append_empty_r (s : string) : (s ++ "")%string = s.
Proof. induction s as [| c s IH]; simpl; congruence. Qed.

(** Formatting a text without braces leaves it as it is. *)
Lemma format_template_brace_free vars s :
  brace_free s = true ->
  forall fuel, String.length s < fuel -> format_template fuel vars s = Some s.
Proof.
  induction s as [| c s IH]; intros Hfree fuel Hfuel.
  - destruct fuel; [inversion Hfuel | reflexivity].
  - destruct fuel as [| fuel]; [inversion Hfuel |].
    simpl in Hfree, Hfuel.
    apply andb_prop in Hfree. destruct Hfree as [Hc Hs].
    apply andb_prop in Hc. destruct Hc as [Hopen Hclose].
    assert (Hrest : format_template fuel vars s = Some s)
      by (apply IH; [exact Hs | lia]).
    destruct c as [b0 b1 b2 b3 b4 b5 b6 b7].
    destruct b0, b1, b2, b3, b4, b5, b6, b7;
      try discriminate Hopen; try discriminate Hclose;
      simpl; rewrite Hrest; reflexivity.
Qed.

Lemma format_brace_free vars s :
  brace_free s = true -> format vars s = Some s.
Proof.
  intros Hfree. unfold format.
  apply format_template_brace_free; [exact Hfree | lia].
Qed.

Lemma brace_free_system_instruction : brace_free system_instruction = true.
Proof. vm_compute. reflexivity. Qed.

Lemma format_prompt_field i :
  format (string_variable i) "{prompt}" = Some (input_prompt i).
Proof.
  unfold format, string_variable. simpl. now rewrite append_empty_r.
Qed.

Lemma format_chat_prompt_with system input history :
  brace_free system = true ->
  format_messages (chat_prompt_with system) (mkChainInput input (Some history)) =
  Some (SystemMessage system :: history ++ [HumanMessage input]).
Proof.
  intros Hfree. unfold chat_prompt_with, format_messages, format_message_like.
  rewrite (format_brace_free _ _ Hfree), format_prompt_field.
  reflexivity.
Qed.

Lemma format_chat_prompt input history :
  format_messages chat_prompt (mkChainInput input (Some history)) =
  Some (SystemMessage system_instruction :: history ++ [HumanMessage input]).
Proof.
  apply format_chat_prompt_with, brace_free_system_instruction.
Qed.

Lemma last_snoc {A} (l : list A) (x d : A) : last (l ++ [x]) d = x.
Proof.
  induction l as [| y l IH]; simpl; trivial.
  destruct (l ++ [x]) eqn:E; [destruct l; discriminate | exact IH].
Qed.

Lemma export_text_document turns :
  export_text turns = spec_export_document turns.
Proof.
  unfold export_text, join.
  induction turns as [| a turns IH]; [reflexivity |].
  destruct turns as [| t turns].
  - destruct a as [[role content] ts]. reflexivity.
  - transitivity
      (export_line a ++ (newline ++ newline) ++
       String.concat (newline ++ newline) (map export_line (t :: turns)))%string;
      [reflexivity |].
    rewrite IH. destruct a as [[role content] ts]. reflexivity.
Qed.

End Prompt.

(** * What one run of the script does *)

Section ScriptRuns.

Lemma show_messages_run ms w :
  show_messages ms w =
  (Done tt, mkWorld (db w) (session_state w) (page w ++ map element_of ms) (llm_calls w)).
Proof.
  revert w. induction ms as [| [[role content] ts] ms IH]; intros w; simpl.
  - unfold ret. rewrite app_nil_r. now destruct w.
  - unfold bind, show. rewrite IH. simpl. now rewrite <- app_assoc.
Qed.

Lemma chat_invoke_run env input sid w :
  chat_invoke env input sid w =
  match llm env (prompt_for (db w) sid input) with
  | inl response =>
      (Done response,
       mkWorld (add_messages sid [HumanMessage input; AIMessage response] (db w))
               (session_state w) (page w)
               (llm_calls w ++ [prompt_for (db w) sid input]))
  | inr e =>
      (Raised e,
       mkWorld (db w) (session_state w) (page w)
               (llm_calls w ++ [prompt_for (db w) sid input]))
  end.
Proof.
  unfold chat_invoke, bind, get_db. rewrite format_chat_prompt.
  fold (prompt_for (db w) sid input).
  unfold record_call, modify_db, ret, raise. simpl.
  destruct (llm env (prompt_for (db w) sid input)); reflexivity.
Qed.

(** Lines 196-205 on a world that holds a message list. *)
Lemma process_user_input_run env sid w s ms :
  session_state w = mkSessionState s (Some ms) ->
  process_user_input env sid w =
  let d1 := insert_chat (timestamp_user env) sid "user" (user_input env) (db w) in
  let p := prompt_for d1 sid (user_input env) in
  match llm env p with
  | inl response =>
      (Rerun,
       mkWorld (insert_chat (timestamp_assistant env) sid "assistant" response
                  (add_messages sid [HumanMessage (user_input env); AIMessage response] d1))
               (mkSessionState s (Some ((ms ++ [user_turn env]) ++ [assistant_turn env response])))
               (page w) (llm_calls w ++ [p]))
  | inr e =>
      (Raised e,
       mkWorld d1 (mkSessionState s (Some (ms ++ [user_turn env])))
               (page w) (llm_calls w ++ [p]))
  end.
Proof.
  intros Hs. unfold process_user_input.
  unfold bind at 1. unfold save_message at 1, modify_db at 1.
  unfold bind at 1. unfold messages_append at 1, current_messages, set_messages,
    bind, get_session_state, put_session_state, ret. simpl. rewrite Hs. simpl.
  rewrite chat_invoke_run. simpl.
  destruct (llm env _); reflexivity.
Qed.

Lemma script_new_chat env w :
  new_chat_button env = true ->
  script env w =
  (Rerun, mkWorld (db w) (mkSessionState (Some (uuid4_new_chat env)) (Some []))
                  (page w) (llm_calls w)).
Proof.
  intros H. destruct w as [d [osid oms] pg calls].
  unfold script, init_session_id, new_chat, set_session_id, set_messages, st_rerun,
    when, bind, get_session_state, put_session_state, ret. simpl.
  rewrite H. destruct osid; reflexivity.
Qed.

Lemma script_drawn env w :
  new_chat_button env = false ->
  script env w =
  when (submit_button env && truthy (user_input env))
       (process_user_input env (active_session env w)) (drawn_world env w).
Proof.
  intros H. destruct w as [d [osid oms] pg calls].
  unfold script, init_session_id, export_chat, current_session_id, init_messages,
    current_messages, set_session_id, set_messages, show, when, get_db,
    get_session_state, put_session_state, raise.
  rewrite H. unfold drawn_world, drawn_page, shown_messages, active_session.
  destruct osid as [sid |], oms as [ms |], (export_button env);
    unfold bind, ret; simpl; rewrite show_messages_run; reflexivity.
Qed.

(** A run in which nothing is submitted. *)
Lemma script_idle env w :
  new_chat_button env = false ->
  submit_button env && truthy (user_input env) = false ->
  script env w = (Done tt, drawn_world env w).
Proof.
  intros H1 H2. rewrite script_drawn by exact H1. rewrite H2. reflexivity.
Qed.

(** A run in which a non-empty input is submitted. *)
Lemma script_submit env w :
  new_chat_button env = false ->
  submit_button env && truthy (user_input env) = true ->
  script env w = process_user_input env (active_session env w) (drawn_world env w).
Proof.
  intros H1 H2. rewrite script_drawn by exact H1. rewrite H2. reflexivity.
Qed.

Lemma submits_guard env :
  submits env -> submit_button env && truthy (user_input env) = true.
Proof.
  intros (_ & Hs & Hi). rewrite Hs. unfold truthy.
  apply String.eqb_neq in Hi. rewrite Hi. reflexivity.
Qed.

Lemma run_script_new_chat env w :
  new_chat_button env = true ->
  run_script env w =
  (Rerun, mkWorld (db w) (mkSessionState (Some (uuid4_new_chat env)) (Some []))
                  [] (llm_calls w)).
Proof.
  intros H. unfold run_script. rewrite script_new_chat by exact H. reflexivity.
Qed.

Lemma run_script_idle env w :
  new_chat_button env = false ->
  submit_button env && truthy (user_input env) = false ->
  run_script env w = (Done tt, drawn_world env (fresh_page w)).
Proof.
  intros H1 H2. unfold run_script. rewrite script_idle by assumption. reflexivity.
Qed.

Lemma run_script_answered env w response :
  submits env ->
  llm env (sent_prompt env w) = inl response ->
  run_script env w =
  (Rerun,
   mkWorld (file_after_answer env w response)
           (mkSessionState (Some (active_session env w))
              (Some ((shown_messages env w ++ [user_turn env]) ++
                     [assistant_turn env response])))
           (drawn_page env (fresh_page w))
           (llm_calls w ++ [sent_prompt env w])).
Proof.
  intros Hs Hl. unfold run_script.
  rewrite script_submit by (try apply submits_guard; apply Hs).
  rewrite (process_user_input_run env _ (drawn_world env (fresh_page w))
             (Some (active_session env (fresh_page w)))
             (shown_messages env (fresh_page w)) eq_refl).
  cbv zeta.
  change (prompt_for _ _ _) with (sent_prompt env w).
  rewrite Hl. reflexivity.
Qed.

Lemma run_script_failed env w e :
  submits env ->
  llm env (sent_prompt env w) = inr e ->
  run_script env w =
  (Raised e,
   mkWorld (file_at_invoke env w)
           (mkSessionState (Some (active_session env w))
              (Some (shown_messages env w ++ [user_turn env])))
           (drawn_page env (fresh_page w) ++ [ExceptionBox e])
           (llm_calls w ++ [sent_prompt env w])).
Proof.
  intros Hs Hl. unfold run_script.
  rewrite script_submit by (try apply submits_guard; apply Hs).
  rewrite (process_user_input_run env _ (drawn_world env (fresh_page w))
             (Some (active_session env (fresh_page w)))
             (shown_messages env (fresh_page w)) eq_refl).
  cbv zeta.
  change (prompt_for _ _ _) with (sent_prompt env w).
  rewrite Hl. reflexivity.
Qed.

(** The run after [st.rerun()] only draws the page. *)
Lemma run_script_quiet env w :
  run_script (quiet env) w = (Done tt, drawn_world (quiet env) (fresh_page w)).
Proof. apply run_script_idle; reflexivity. Qed.

Lemma run_cases env w : RunCase env w.
Proof.
  destruct (new_chat_button env) eqn:Hn; [now apply case_new_chat |].
  destruct (submit_button env && truthy (user_input env)) eqn:Hg;
    [| now apply case_idle].
  assert (Hs : submits env).
  { apply andb_prop in Hg. destruct Hg as [Hb Ht]. repeat split; trivial.
    unfold truthy in Ht. apply negb_true_iff in Ht. now apply String.eqb_neq. }
  destruct (llm env (sent_prompt env w)) as [response | e] eqn:Hl.
  - now apply (case_answered env w response).
  - now apply (case_failed env w e).
Qed.

End ScriptRuns.

(** * The message store *)

Lemma filter_all {A} (f : A -> bool) l :
  Forall (fun x => f x = true) l -> filter f l = l.
Proof.
  induction 1 as [| x l Hx Hl IH]; simpl; trivial. rewrite Hx, IH. reflexivity.
Qed.

Lemma Sorted_map_inv {A B} (f : A -> B) (R : B -> B -> Prop) l :
  Sorted R (map f l) -> Sorted (fun a b => R (f a) (f b)) l.
Proof.
  induction l as [| x l IH]; simpl; intros H; [constructor |].
  inversion H as [| ? ? Hs Hd]; subst. constructor; [auto |].
  destruct l; simpl in *; constructor. inversion Hd; assumption.
Qed.

(** The rows a session holds after [append_turns], when it held none. *)
Lemma select_after_appends d sid turns :
  (forall r, In r (chat d) -> row_session_id r <> sid) ->
  exists rows,
    select_chat (append_turns sid turns d) sid = order_by_timestamp rows /\
    map selected_columns rows = turns.
Proof.
  intros Hnone.
  destruct (chat_append_turns sid turns d) as (rows & Hc & Hm & Hs).
  exists rows. split; [| exact Hm].
  unfold select_chat. rewrite Hc, filter_app.
  rewrite filter_none.
  - simpl. rewrite filter_all; [reflexivity |].
    eapply Forall_impl; [| exact Hs]. simpl. intros r Hr.
    now apply String.eqb_eq.
  - intros r Hr. apply String.eqb_neq. auto.
Qed.

(** C7: the rows load returns for a session are that session's rows, each
    before every later one in the order "earlier timestamp first, equal
    timestamps by id". *)
Theorem load_ordered_by_timestamp_then_id (d : Db) (sid : string) :
  well_formed d ->
  load_chat_history d sid = map selected_columns (select_chat d sid) /\
  (forall r, In r (select_chat d sid) <-> In r (chat d) /\ row_session_id r = sid) /\
  StronglySorted by_timestamp_then_id (select_chat d sid).
Proof.
  intros [Hids _]. split; [reflexivity |]. split.
  - intros r. unfold select_chat. rewrite order_by_timestamp_In, filter_In.
    rewrite String.eqb_eq. reflexivity.
  - apply Sorted_StronglySorted.
    + intros a b c. apply by_timestamp_then_id_trans.
    + apply order_by_timestamp_sorted. apply filter_StronglySorted. exact Hids.
Qed.

Lemma load_ordered_by_timestamp_then_id_witness :
  StronglySorted by_timestamp_then_id (select_chat tied_db "s") /\
  map row_id (select_chat tied_db "s") = [4; 1; 2; 3]%Z.
Proof.
  split; [| reflexivity].
  apply (load_ordered_by_timestamp_then_id tied_db "s").
  unfold tied_db. apply well_formed_insert_chat.
  unfold append_turns. simpl.
  repeat apply well_formed_insert_chat. apply well_formed_empty.
Defined.

Lemma select_chat_none d sid :
  (forall r, In r (chat d) -> row_session_id r <> sid) ->
  select_chat d sid = [].
Proof.
  intros Hnone. unfold select_chat.
  rewrite filter_none; [reflexivity |].
  intros r Hr. apply String.eqb_neq. auto.
Qed.

(** C9: load of a session without any turn, known or not, is the empty
    list. *)
Theorem load_of_session_without_turns (d : Db) (sid : string) :
  (forall r, In r (chat d) -> row_session_id r <> sid) ->
  load_chat_history d sid = [].
Proof.
  intros Hnone. unfold load_chat_history.
  rewrite select_chat_none by exact Hnone. reflexivity.
Qed.

Lemma load_of_session_without_turns_witness :
  load_chat_history tied_db "never seen" = [] /\
  load_chat_history empty_db "s" = [].
Proof.
  split.
  - apply load_of_session_without_turns.
    intros r Hr. simpl in Hr.
    repeat (destruct Hr as [<- | Hr]; [discriminate |]). destruct Hr.
  - apply load_of_session_without_turns. intros r [].
Defined.

(** * The prompt and the export *)

(** C4: for every history, the empty one included, and every user message,
    the formatted prompt is the system instruction, then the history as it
    was given, then the user message as a human turn; the same holds with
    any system text without template braces in the place of the fixed
    one. *)
Theorem prompt_is_system_history_user
  (system : string) (history : list BaseMessage) (user_message : string) :
  (brace_free system = true ->
   format_messages (chat_prompt_with system)
     (mkChainInput user_message (Some history))
     = Some ([SystemMessage system] ++ history ++ [HumanMessage user_message])) /\
  exists prompt_value,
    format_messages chat_prompt (mkChainInput user_message (Some history))
      = Some prompt_value /\
    prompt_value =
      [SystemMessage system_instruction] ++ history ++ [HumanMessage user_message] /\
    hd_error prompt_value = Some (SystemMessage system_instruction) /\
    last prompt_value (SystemMessage "") = HumanMessage user_message /\
    format_messages chat_prompt (mkChainInput user_message (Some []))
      = Some [SystemMessage system_instruction; HumanMessage user_message].
Proof.
  split; [intros Hfree; apply format_chat_prompt_with; exact Hfree |].
  exists (SystemMessage system_instruction :: history ++ [HumanMessage user_message]).
  split; [apply format_chat_prompt |].
  split; [reflexivity |].
  split; [reflexivity |].
  split.
  - change (SystemMessage system_instruction :: history ++ [HumanMessage user_message])
      with ((SystemMessage system_instruction :: history) ++ [HumanMessage user_message]).
    apply last_snoc.
  - apply (format_chat_prompt user_message []).
Qed.

Lemma prompt_is_system_history_user_witness :
  format_messages (chat_prompt_with "Answer briefly.")
    (mkChainInput "What is a p-value?" (Some [HumanMessage "Hi"; AIMessage "Hello"]))
  = Some [SystemMessage "Answer briefly."; HumanMessage "Hi"; AIMessage "Hello";
          HumanMessage "What is a p-value?"].
Proof.
  apply (prompt_is_system_history_user "Answer briefly."
           [HumanMessage "Hi"; AIMessage "Hello"] "What is a p-value?").
  reflexivity.
Defined.

(** * Interactions *)

Section Interactions.

Lemma interaction_new_chat env w :
  new_chat_button env = true ->
  interaction env w =
  (Done tt, mkWorld (db w) (mkSessionState (Some (uuid4_new_chat env)) (Some []))
                    [] (llm_calls w)).
Proof.
  intros H. unfold interaction. rewrite run_script_new_chat by exact H.
  rewrite run_script_quiet. reflexivity.
Qed.

Lemma interaction_idle env w :
  new_chat_button env = false ->
  submit_button env && truthy (user_input env) = false ->
  interaction env w = (Done tt, drawn_world env (fresh_page w)).
Proof.
  intros H1 H2. unfold interaction. rewrite run_script_idle by assumption.
  reflexivity.
Qed.

Lemma interaction_answered env w response :
  submits env ->
  llm env (sent_prompt env w) = inl response ->
  interaction env w =
  (Done tt,
   mkWorld (file_after_answer env w response)
           (mkSessionState (Some (active_session env w))
              (Some ((shown_messages env w ++ [user_turn env]) ++
                     [assistant_turn env response])))
           (map element_of ((shown_messages env w ++ [user_turn env]) ++
                            [assistant_turn env response]))
           (llm_calls w ++ [sent_prompt env w])).
Proof.
  intros Hs Hl. unfold interaction.
  rewrite (run_script_answered env w response Hs Hl).
  rewrite run_script_quiet. reflexivity.
Qed.

Lemma interaction_failed env w e :
  submits env ->
  llm env (sent_prompt env w) = inr e ->
  interaction env w = run_script env w.
Proof.
  intros Hs Hl. unfold interaction.
  rewrite (run_script_failed env w e Hs Hl). reflexivity.
Qed.

(** The rows of [chat] an interaction leaves are the old rows followed by
    nothing, by the user's row, or by the user's and the assistant's. *)
Lemma interaction_chat env w :
  chat (db (snd (interaction env w))) = chat (db w) \/
  chat (db (snd (interaction env w))) = chat (db w) ++ [user_row env w] \/
  exists response,
    chat (db (snd (interaction env w))) =
    chat (db w) ++ [user_row env w; assistant_row env w response].
Proof.
  destruct (run_cases env w) as [Hn | Hn Hg | response Hs Hl | e Hs Hl].
  - left. rewrite interaction_new_chat by exact Hn. reflexivity.
  - left. rewrite interaction_idle by assumption. reflexivity.
  - right; right. exists response.
    rewrite (interaction_answered env w response Hs Hl). simpl.
    rewrite <- app_assoc. reflexivity.
  - right; left. rewrite (interaction_failed env w e Hs Hl).
    rewrite (run_script_failed env w e Hs Hl). reflexivity.
Qed.

(** Every file the script produces from a well-formed one is well-formed. *)
Lemma well_formed_interaction env w :
  well_formed (db w) -> well_formed (db (snd (interaction env w))).
Proof.
  intros Hwf.
  destruct (run_cases env w) as [Hn | Hn Hg | response Hs Hl | e Hs Hl].
  - rewrite interaction_new_chat by exact Hn. exact Hwf.
  - rewrite interaction_idle by assumption. exact Hwf.
  - rewrite (interaction_answered env w response Hs Hl). simpl.
    unfold file_after_answer, file_at_invoke.
    apply well_formed_insert_chat, well_formed_add_messages, well_formed_insert_chat.
    exact Hwf.
  - rewrite (interaction_failed env w e Hs Hl).
    rewrite (run_script_failed env w e Hs Hl). simpl.
    apply well_formed_insert_chat. exact Hwf.
Qed.

Lemma well_formed_interactions envs w :
  well_formed (db w) -> well_formed (db (snd (interactions envs w))).
Proof.
  revert w. induction envs as [| env envs IH]; intros w Hwf; simpl.
  - exact Hwf.
  - pose proof (well_formed_interaction env w Hwf) as H1.
    destruct (interaction env w) as [o w1].
    specialize (IH w1 H1). destruct (interactions envs w1) as [os w2].
    exact IH.
Qed.

End Interactions.

(** C6, as stated, fails: a submitted input of one space is stored and sent
    to the model. *)
Lemma blank_input_is_processed :
  ~ (forall env w,
       submit_button env = true ->
       blank (user_input env) = true ->
       db (snd (interaction env w)) = db w /\
       llm_calls (snd (interaction env w)) = llm_calls w).
Proof.
  intros H. destruct (H space_env initial_world eq_refl eq_refl) as [Hdb _].
  apply (f_equal (fun d => length (chat d))) in Hdb.
  vm_compute in Hdb. discriminate.
Qed.

(** C6, amended: a submission whose input is the empty string writes nothing
    to the file and sends nothing to the model. *)
Theorem empty_input_is_a_noop (env : Env) (w : World) :
  user_input env = "" ->
  db (snd (interaction env w)) = db w /\
  llm_calls (snd (interaction env w)) = llm_calls w.
Proof.
  intros Hempty.
  destruct (new_chat_button env) eqn:Hn.
  - rewrite interaction_new_chat by exact Hn. split; reflexivity.
  - rewrite interaction_idle; [split; reflexivity | exact Hn |].
    rewrite Hempty. apply andb_false_r.
Qed.

Lemma empty_input_is_a_noop_witness :
  db (snd (interaction empty_env two_turns_world)) = db two_turns_world /\
  llm_calls (snd (interaction empty_env two_turns_world)) = [].
Proof.
  apply (empty_input_is_a_noop empty_env two_turns_world). reflexivity.
Defined.

(** C10: a submission of a non-empty text that the model answers adds to
    [chat] the user's row and then the assistant's row, both for the current
    session and nothing else; and whatever an interaction adds to [chat] has
    the role "user" or "assistant". *)
Theorem submission_writes_user_then_assistant
  (env : Env) (w : World) (response : string) :
  submits env ->
  llm env (sent_prompt env w) = inl response ->
  chat (db (snd (interaction env w))) =
    chat (db w) ++
    [ mkChatRow (sqlite_sequence (db w) + 1) (active_session env w)
                "user" (user_input env) (timestamp_user env);
      mkChatRow (sqlite_sequence (db w) + 1 + 1) (active_session env w)
                "assistant" response (timestamp_assistant env) ] /\
  (forall env' w', exists rows,
      chat (db (snd (interaction env' w'))) = chat (db w') ++ rows /\
      Forall (fun r => row_role r = "user" \/ row_role r = "assistant") rows).
Proof.
  intros Hs Hl. split.
  - rewrite (interaction_answered env w response Hs Hl). simpl.
    rewrite <- app_assoc. reflexivity.
  - intros env' w'.
    destruct (interaction_chat env' w') as [H | [H | [r H]]]; rewrite H.
    + exists []. rewrite app_nil_r. split; constructor.
    + exists [user_row env' w']. split; [reflexivity |].
      constructor; [left; reflexivity | constructor].
    + exists [user_row env' w'; assistant_row env' w' r]. split; [reflexivity |].
      constructor; [left; reflexivity |].
      constructor; [right; reflexivity | constructor].
Qed.

Lemma submission_writes_user_then_assistant_witness :
  chat (db (snd (interaction hi_env initial_world))) =
  [ mkChatRow 1 "session-1" "user" "Hi" "2024-01-01 00:00:00";
    mkChatRow 2 "session-1" "assistant" "Hello" "2024-01-01 00:00:01" ].
Proof.
  apply (submission_writes_user_then_assistant hi_env initial_world "Hello").
  - repeat split. discriminate.
  - reflexivity.
Defined.

(** * A completion that fails *)

(** C2, as stated, fails: after the failed completion the user's turn is
    stored without an answer and the redisplay says nothing of a failure. *)
Lemma unanswered_turn_without_notice :
  ~ (forall env w e,
       submits env ->
       llm env (sent_prompt env w) = inr e ->
       ~ unanswered_user_turn (db (snd (interaction env w))) (active_session env w) \/
       failure_indicated (redisplay env (snd (interaction env w)))).
Proof.
  intros H.
  destruct (H failing_env initial_world (UpstreamError "503")) as [Hno | [e Hin]].
  - repeat split. discriminate.
  - reflexivity.
  - apply Hno.
    exists [], (mkChatRow 1 "session-1" "user" "Hi" "2024-01-01 00:00:00").
    split; reflexivity.
  - vm_compute in Hin. destruct Hin as [Hin | []]. discriminate.
Qed.

(** C2, amended: when the completion fails, the run ends with that error,
    uncaught, and its page shows it; the user's row is the only row written
    and stays, no assistant turn is written to the file, to the chain's
    history or to the message list; nothing of the failure is kept, so the
    next display shows the stored messages, the question last, and no
    notice. *)
Theorem failed_completion_is_raised_not_answered
  (env : Env) (w : World) (e : Exception) :
  submits env ->
  llm env (sent_prompt env w) = inr e ->
  fst (interaction env w) = Raised e /\
  failure_indicated (page (snd (interaction env w))) /\
  chat (db (snd (interaction env w))) =
    chat (db w) ++
    [mkChatRow (sqlite_sequence (db w) + 1) (active_session env w)
               "user" (user_input env) (timestamp_user env)] /\
  message_store (db (snd (interaction env w))) = message_store (db w) /\
  messages (session_state (snd (interaction env w))) =
    Some (shown_messages env w ++ [user_turn env]) /\
  fst (run_script (quiet env) (snd (interaction env w))) = Done tt /\
  redisplay env (snd (interaction env w)) =
    map element_of (shown_messages env w ++ [user_turn env]) /\
  ~ failure_indicated (redisplay env (snd (interaction env w))).
Proof.
  intros Hs Hl.
  rewrite (interaction_failed env w e Hs Hl).
  rewrite (run_script_failed env w e Hs Hl). simpl.
  split; [reflexivity |].
  split; [exists e; apply in_or_app; right; left; reflexivity |].
  split; [reflexivity |].
  split; [reflexivity |].
  split; [reflexivity |].
  unfold redisplay. rewrite run_script_quiet. simpl.
  split; [reflexivity |].
  split; [reflexivity |].
  intros [e' Hin]. apply in_map_iff in Hin.
  destruct Hin as ([[role content] ts] & Heq & _). discriminate.
Qed.

Lemma failed_completion_is_raised_not_answered_witness :
  fst (interaction failing_env initial_world) = Raised (UpstreamError "503") /\
  chat (db (snd (interaction failing_env initial_world))) =
    [mkChatRow 1 "session-1" "user" "Hi" "2024-01-01 00:00:00"] /\
  redisplay failing_env (snd (interaction failing_env initial_world)) =
    [ChatMessage "user" "Hi" "2024-01-01 01:00:00"].
Proof.
  destruct (failed_completion_is_raised_not_answered failing_env initial_world
              (UpstreamError "503"))
    as (Hout & _ & Hchat & _ & _ & _ & Hpage & _).
  - repeat split. discriminate.
  - reflexivity.
  - split; [exact Hout |]. split; [exact Hchat | exact Hpage].
Defined.

(** * The history in the prompt *)

Section History.

Lemma tables_agree_empty : tables_agree empty_db.
Proof. intros sid. reflexivity. Qed.

Lemma tables_agree_after_answer env w response :
  tables_agree (db w) -> tables_agree (file_after_answer env w response).
Proof.
  intros Hagree sid.
  unfold history_messages, session_rows, file_after_answer, file_at_invoke. simpl.
  rewrite <- app_assoc. rewrite !filter_app, !map_app.
  fold (history_messages (db w) sid). fold (session_rows (db w) sid).
  rewrite Hagree. f_equal. simpl.
  destruct (active_session env w =? sid); reflexivity.
Qed.

Lemma tables_agree_interaction env w :
  tables_agree (db w) ->
  not_raised (fst (interaction env w)) ->
  tables_agree (db (snd (interaction env w))).
Proof.
  intros Hagree Hok.
  destruct (run_cases env w) as [Hn | Hn Hg | response Hs Hl | e Hs Hl].
  - rewrite interaction_new_chat by exact Hn. exact Hagree.
  - rewrite interaction_idle by assumption. exact Hagree.
  - rewrite (interaction_answered env w response Hs Hl). simpl.
    apply tables_agree_after_answer. exact Hagree.
  - exfalso. apply (Hok e).
    rewrite (interaction_failed env w e Hs Hl).
    rewrite (run_script_failed env w e Hs Hl). reflexivity.
Qed.

Lemma tables_agree_interactions envs w :
  tables_agree (db w) ->
  Forall not_raised (fst (interactions envs w)) ->
  tables_agree (db (snd (interactions envs w))).
Proof.
  revert w. induction envs as [| env envs IH]; intros w Hagree Hok; simpl in *.
  - exact Hagree.
  - destruct (interaction env w) as [o w1] eqn:E1.
    destruct (interactions envs w1) as [os w2] eqn:E2. simpl in *.
    inversion Hok as [| ? ? Ho Hos]; subst.
    specialize (IH w1). rewrite E2 in IH. apply IH; [| exact Hos].
    pose proof (tables_agree_interaction env w Hagree) as H.
    rewrite E1 in H. apply H. exact Ho.
Qed.

(** With ascending timestamps load returns the session's rows as written. *)
Lemma spec_to_prompt_messages_rows d sid :
  Sorted timestamp_le (session_rows d sid) ->
  spec_to_prompt_messages d sid =
  map (fun r => (row_role r, row_content r)) (session_rows d sid).
Proof.
  intros Hsorted. unfold spec_to_prompt_messages, load_chat_history, select_chat.
  fold (session_rows d sid).
  rewrite order_by_timestamp_ascending by exact Hsorted.
  rewrite map_map. reflexivity.
Qed.

(** Every submission sends one prompt: the system text, what the chain has
    stored for the session, the new message. *)
Lemma run_script_sends env w :
  submits env ->
  llm_calls (snd (run_script env w)) = llm_calls w ++ [sent_prompt env w].
Proof.
  intros Hs. destruct (llm env (sent_prompt env w)) as [response | e] eqn:Hl.
  - rewrite (run_script_answered env w response Hs Hl). reflexivity.
  - rewrite (run_script_failed env w e Hs Hl). reflexivity.
Qed.

End History.

(** C1, as stated, fails: the history in the prompt is neither what load
    returns when the prompt is built nor what it returned before the new
    turn was written. *)
Lemma prompt_history_is_not_load :
  ~ (forall env w,
       submits env ->
       exists history,
         llm_calls (snd (run_script env w)) =
           llm_calls w ++
           [SystemMessage system_instruction :: history ++ [HumanMessage (user_input env)]] /\
         (map role_content history =
            spec_to_prompt_messages (file_at_invoke env w) (active_session env w) \/
          map role_content history =
            spec_to_prompt_messages (db w) (active_session env w))).
Proof.
  intros H.
  destruct (H again_env world_after_failure) as (history & Hcall & Hhist).
  - repeat split. discriminate.
  - vm_compute in Hcall.
    assert (history = []) as ->.
    { destruct history as [| m [| m' history]]; trivial; discriminate. }
    vm_compute in Hhist. destruct Hhist; discriminate.
Qed.

(** C1, amended: every time a prompt is built, in whatever state the file
    is, the history in it is all the chain has stored for the session in its
    own table, nothing left out.  When the world was reached from a file on
    which the two tables agree (a fresh one does) by runs none of which
    ended with an exception, and the timestamps of the session do not
    decrease, this is what load returned for the session before the new
    user turn was written, timestamp dropped. *)
Theorem prompt_history_is_chain_history (w : World) (env : Env) :
  submits env ->
  llm_calls (snd (run_script env w)) =
    llm_calls w ++
    [SystemMessage system_instruction ::
     history_messages (db w) (active_session env w) ++
     [HumanMessage (user_input env)]] /\
  (forall w0 envs,
     w = snd (interactions envs w0) ->
     tables_agree (db w0) ->
     Forall not_raised (fst (interactions envs w0)) ->
     Sorted timestamp_le (session_rows (db w) (active_session env w)) ->
     map role_content (history_messages (db w) (active_session env w)) =
     spec_to_prompt_messages (db w) (active_session env w)).
Proof.
  intros Hs. split.
  - apply run_script_sends. exact Hs.
  - intros w0 envs -> Hagree Hok Hsorted.
    rewrite spec_to_prompt_messages_rows by exact Hsorted.
    apply (tables_agree_interactions envs w0 Hagree Hok).
Qed.

Lemma prompt_history_is_chain_history_witness :
  llm_calls (snd (run_script again_env world_after_failure)) =
    llm_calls world_after_failure ++
    [[SystemMessage system_instruction; HumanMessage "Again"]] /\
  llm_calls (snd (run_script again_env (snd (interactions [hi_env] initial_world)))) =
    llm_calls (snd (interactions [hi_env] initial_world)) ++
    [[SystemMessage system_instruction; HumanMessage "Hi"; AIMessage "Hello";
      HumanMessage "Again"]] /\
  spec_to_prompt_messages (db (snd (interactions [hi_env] initial_world))) "session-1" =
    [("user", "Hi"); ("assistant", "Hello")].
Proof.
  assert (Hs : submits again_env) by (repeat split; discriminate).
  destruct (prompt_history_is_chain_history world_after_failure again_env Hs)
    as [Hfailed _].
  destruct (prompt_history_is_chain_history
              (snd (interactions [hi_env] initial_world)) again_env Hs)
    as [Hsent Hload].
  split; [exact Hfailed |]. split; [exact Hsent |].
  refine (eq_sym (Hload initial_world [hi_env] eq_refl _ _ _)).
  - intros sid. reflexivity.
  - vm_compute. constructor; [intros e; discriminate | constructor].
  - vm_compute. repeat constructor.
Defined.

(** * More on the order of load *)

Section LoadOrder.

Lemma compare_refl a : String.compare a a = Eq.
Proof.
  destruct (String.compare a a) eqn:E; trivial.
  - apply OrderedTypeEx.String_as_OT.cmp_lt in E.
    exfalso. eapply OrderedTypeEx.String_as_OT.lt_not_eq; [exact E | reflexivity].
  - pose proof (String.compare_antisym a a) as H. rewrite E in H. discriminate.
Qed.

Lemma leb_trans a b c :
  String.leb a b = true -> String.leb b c = true -> String.leb a c = true.
Proof.
  intros Hab Hbc.
  apply leb_true_cases in Hab. apply leb_true_cases in Hbc.
  unfold String.leb.
  destruct Hab as [Hab | ->], Hbc as [Hbc | ->].
  - now rewrite (compare_lt_trans a b c Hab Hbc).
  - now rewrite Hab.
  - now rewrite Hbc.
  - now rewrite compare_refl.
Qed.

Lemma leb_false_le a b : String.leb a b = false -> String.leb b a = true.
Proof.
  intros H. destruct (String.leb_total a b) as [H' | H']; [congruence | exact H'].
Qed.

Lemma timestamp_le_trans a b c :
  timestamp_le a b -> timestamp_le b c -> timestamp_le a c.
Proof. unfold timestamp_le. apply leb_trans. Qed.

Lemma insert_by_timestamp_perm r l :
  Permutation (insert_by_timestamp r l) (r :: l).
Proof.
  induction l as [| y l IH]; simpl; [reflexivity |].
  destruct (String.leb _ _); [reflexivity |].
  rewrite IH. apply perm_swap.
Qed.

Lemma order_by_timestamp_perm l : Permutation (order_by_timestamp l) l.
Proof.
  induction l as [| y l IH]; simpl; [reflexivity |].
  rewrite insert_by_timestamp_perm. now constructor.
Qed.

Lemma insert_by_timestamp_ascends r l :
  Sorted timestamp_le l -> Sorted timestamp_le (insert_by_timestamp r l).
Proof.
  induction 1 as [| y l Hs IH Hd]; simpl.
  - repeat constructor.
  - destruct (String.leb (row_timestamp r) (row_timestamp y)) eqn:E.
    + constructor; [now constructor | constructor; exact E].
    + apply leb_false_le in E. constructor; [exact IH |].
      destruct l as [| z l]; simpl.
      * constructor; exact E.
      * destruct (String.leb (row_timestamp r) (row_timestamp z));
          constructor; [exact E | now inversion Hd].
Qed.

Lemma order_by_timestamp_ascends l : Sorted timestamp_le (order_by_timestamp l).
Proof.
  induction l as [| y l IH]; simpl; [constructor |].
  now apply insert_by_timestamp_ascends.
Qed.

(** Sorting a table that got one more row at its end. *)
Lemma place_last_insert a x l :
  insert_by_timestamp a (place_last x l) = place_last x (insert_by_timestamp a l).
Proof.
  induction l as [| y l IH]; simpl; unfold not_later.
  - destruct (String.leb (row_timestamp a) (row_timestamp x)); reflexivity.
  - destruct (String.leb (row_timestamp y) (row_timestamp x)) eqn:Eyx;
      destruct (String.leb (row_timestamp a) (row_timestamp y)) eqn:Eay;
      simpl; unfold not_later; rewrite ?Eay, ?Eyx.
    + rewrite (leb_trans _ _ _ Eay Eyx). reflexivity.
    + rewrite IH. reflexivity.
    + destruct (String.leb (row_timestamp a) (row_timestamp x)); simpl;
        rewrite ?Eay; reflexivity.
    + destruct (String.leb (row_timestamp a) (row_timestamp x)) eqn:Eax.
      * apply leb_false_le in Eyx.
        rewrite (leb_trans _ _ _ Eax Eyx) in Eay. discriminate.
      * simpl. rewrite ?Eay. reflexivity.
Qed.

Lemma order_by_timestamp_snoc l x :
  order_by_timestamp (l ++ [x]) = place_last x (order_by_timestamp l).
Proof.
  induction l as [| a l IH]; simpl; [reflexivity |].
  rewrite IH. apply place_last_insert.
Qed.

Lemma place_last_sorted x l :
  StronglySorted timestamp_le l ->
  place_last x l =
  filter (not_later (row_timestamp x)) l ++ [x] ++
  filter (fun r => negb (not_later (row_timestamp x) r)) l.
Proof.
  induction 1 as [| y l Hs IH Hy]; simpl; [reflexivity |].
  destruct (not_later (row_timestamp x) y) eqn:E; simpl.
  - rewrite IH. reflexivity.
  - assert (Hall : forall z, In z l -> not_later (row_timestamp x) z = false).
    { intros z Hz. rewrite Forall_forall in Hy. specialize (Hy z Hz).
      unfold not_later in *. destruct (String.leb (row_timestamp z) _) eqn:Ez; trivial.
      unfold timestamp_le in Hy. rewrite (leb_trans _ _ _ Hy Ez) in E. discriminate. }
    rewrite (filter_none _ l Hall). simpl. do 2 f_equal.
    symmetry. apply filter_all. apply Forall_forall. intros z Hz.
    now rewrite (Hall z Hz).
Qed.

Lemma session_rows_insert_same now sid role content d :
  session_rows (insert_chat now sid role content d) sid =
  session_rows d sid ++ [mkChatRow (sqlite_sequence d + 1) sid role content now].
Proof.
  unfold session_rows. simpl. rewrite filter_app. simpl.
  now rewrite String.eqb_refl.
Qed.

Lemma session_rows_insert_other now sid role content d other :
  other <> sid ->
  session_rows (insert_chat now sid role content d) other = session_rows d other.
Proof.
  intros Hne. unfold session_rows. simpl. rewrite filter_app. simpl.
  assert (E : (sid =? other) = false) by (apply String.eqb_neq; congruence).
  rewrite E. apply app_nil_r.
Qed.

Lemma select_chat_insert_same d now sid role content :
  select_chat (insert_chat now sid role content d) sid =
  filter (not_later now) (select_chat d sid) ++
  [mkChatRow (sqlite_sequence d + 1) sid role content now] ++
  filter (fun r => negb (not_later now r)) (select_chat d sid).
Proof.
  unfold select_chat. fold (session_rows (insert_chat now sid role content d) sid).
  fold (session_rows d sid).
  rewrite session_rows_insert_same, order_by_timestamp_snoc.
  apply (place_last_sorted (mkChatRow (sqlite_sequence d + 1) sid role content now)).
  apply Sorted_StronglySorted.
  - intros a b c. apply timestamp_le_trans.
  - apply order_by_timestamp_ascends.
Qed.

End LoadOrder.

(** X1: whatever the timestamps and ids are, load returns every row of the
    session exactly once and no other row, in ascending order of timestamp. *)
Theorem load_is_sorted_permutation (d : Db) (sid : string) :
  Permutation (select_chat d sid) (session_rows d sid) /\
  StronglySorted timestamp_le (select_chat d sid) /\
  length (load_chat_history d sid) = length (session_rows d sid).
Proof.
  split; [apply order_by_timestamp_perm |]. split.
  - apply Sorted_StronglySorted.
    + intros a b c. apply timestamp_le_trans.
    + apply order_by_timestamp_ascends.
  - unfold load_chat_history. rewrite length_map.
    apply order_by_timestamp_length.
Qed.

(** X2: after [save_message] the new row is loaded behind the rows of its
    session whose timestamp is not later than its own and in front of the
    rows with a later timestamp; the other rows keep their order, and what
    is loaded for any other session is unchanged. *)
Theorem load_after_save_message (d : Db) (now sid role content : string) :
  select_chat (insert_chat now sid role content d) sid =
    filter (not_later now) (select_chat d sid) ++
    [mkChatRow (sqlite_sequence d + 1) sid role content now] ++
    filter (fun r => negb (not_later now r)) (select_chat d sid) /\
  (forall other, other <> sid ->
     load_chat_history (insert_chat now sid role content d) other =
     load_chat_history d other).
Proof.
  split.
  - apply select_chat_insert_same.
  - intros other Hne. unfold load_chat_history, select_chat.
    fold (session_rows (insert_chat now sid role content d) other).
    now rewrite session_rows_insert_other.
Qed.

Lemma load_after_save_message_witness :
  load_chat_history
    (insert_chat "2024-01-01 00:00:05" "another" "user" "x" tied_db) "s" =
  load_chat_history tied_db "s".
Proof.
  apply (load_after_save_message tied_db "2024-01-01 00:00:05" "another" "user" "x").
  discriminate.
Defined.

(** * More on interactions *)

Section MoreInteractions.

(** The file an interaction leaves. *)
Lemma interaction_db env w :
  db (snd (interaction env w)) = db w \/
  (exists e, submits env /\ llm env (sent_prompt env w) = inr e /\
             db (snd (interaction env w)) = file_at_invoke env w) \/
  (exists response, submits env /\ llm env (sent_prompt env w) = inl response /\
             db (snd (interaction env w)) = file_after_answer env w response).
Proof.
  destruct (run_cases env w) as [Hn | Hn Hg | response Hs Hl | e Hs Hl].
  - left. now rewrite interaction_new_chat.
  - left. now rewrite interaction_idle.
  - right; right. exists response. repeat split; try apply Hs; trivial.
    now rewrite (interaction_answered env w response Hs Hl).
  - right; left. exists e. repeat split; try apply Hs; trivial.
    rewrite (interaction_failed env w e Hs Hl).
    now rewrite (run_script_failed env w e Hs Hl).
Qed.

(** What the two inserts and the chain's store keep true, every sequence of
    interactions keeps true. *)
Lemma interactions_keep (P : Db -> Prop) :
  (forall now sid role content d, P d -> P (insert_chat now sid role content d)) ->
  (forall sid q a d, P d -> P (add_messages sid [HumanMessage q; AIMessage a] d)) ->
  forall envs w, P (db w) -> P (db (snd (interactions envs w))).
Proof.
  intros Hins Hadd envs. induction envs as [| env envs IH]; intros w HP; simpl.
  - exact HP.
  - assert (H1 : P (db (snd (interaction env w)))).
    { destruct (interaction_db env w) as [E | [(e & _ & _ & E) | (r & _ & _ & E)]];
        rewrite E.
      - exact HP.
      - apply Hins, HP.
      - apply Hins, Hadd, Hins, HP. }
    destruct (interaction env w) as [o w1]. simpl in H1.
    specialize (IH w1 H1). destruct (interactions envs w1) as [os w2]. exact IH.
Qed.

Lemma ids_consecutive_insert now sid role content d :
  ids_consecutive d -> ids_consecutive (insert_chat now sid role content d).
Proof.
  intros [Hids Hseq]. unfold ids_consecutive, insert_chat.
  cbn [chat sqlite_sequence].
  rewrite length_app. cbn [length]. rewrite Nat.add_1_r.
  rewrite seq_S, !map_app, Hids, Hseq. cbn [map row_id].
  split; [do 2 f_equal |]; lia.
Qed.

Lemma history_messages_insert now sid role content d s :
  history_messages (insert_chat now sid role content d) s = history_messages d s.
Proof. reflexivity. Qed.

Lemma history_messages_add sid msgs d s :
  history_messages (add_messages sid msgs d) s =
  history_messages d s ++ (if sid =? s then msgs else []).
Proof.
  unfold history_messages. simpl. rewrite filter_app, map_app. f_equal.
  induction msgs as [| m msgs IH]; simpl.
  - now destruct (sid =? s).
  - destruct (sid =? s) eqn:E; simpl; [now rewrite IH | exact IH].
Qed.

Lemma session_rows_add sid msgs d s :
  session_rows (add_messages sid msgs d) s = session_rows d s.
Proof. reflexivity. Qed.

Lemma session_rows_after_answer env w response :
  session_rows (file_after_answer env w response) (active_session env w) =
  session_rows (db w) (active_session env w) ++
  [user_row env w; assistant_row env w response].
Proof.
  unfold file_after_answer, file_at_invoke.
  rewrite session_rows_insert_same, session_rows_add, session_rows_insert_same.
  rewrite <- app_assoc. reflexivity.
Qed.

(** With ascending timestamps load returns the rows as they were written. *)
Lemma load_of_ascending_rows d sid :
  Sorted timestamp_le (session_rows d sid) ->
  load_chat_history d sid = map selected_columns (session_rows d sid).
Proof.
  intros H. unfold load_chat_history, select_chat. fold (session_rows d sid).
  now rewrite order_by_timestamp_ascending.
Qed.

Lemma load_insert_other now sid role content d other :
  other <> sid ->
  load_chat_history (insert_chat now sid role content d) other =
  load_chat_history d other.
Proof.
  intros Hne. unfold load_chat_history, select_chat.
  fold (session_rows (insert_chat now sid role content d) other).
  now rewrite session_rows_insert_other.
Qed.

Lemma load_add_messages sid msgs d s :
  load_chat_history (add_messages sid msgs d) s = load_chat_history d s.
Proof. reflexivity. Qed.

Lemma submit_guard_spec env :
  submit_guard env = true <-> submits env.
Proof.
  unfold submit_guard, submits, truthy. split.
  - intros H. apply andb_prop in H. destruct H as [H Ht].
    apply andb_prop in H. destruct H as [Hn Hb].
    apply negb_true_iff in Hn. apply negb_true_iff in Ht.
    apply String.eqb_neq in Ht. auto.
  - intros (Hn & Hb & Hi). apply String.eqb_neq in Hi.
    now rewrite Hn, Hb, Hi.
Qed.

End MoreInteractions.

(** X3: in every file the script makes out of a fresh one, the ids of [chat]
    are 1, 2, ..., one per row in the order of writing, and the sequence
    value is the number of rows. *)
Theorem ids_count_the_rows (envs : list Env) :
  ids_consecutive (db (snd (interactions envs initial_world))).
Proof.
  apply (interactions_keep ids_consecutive).
  - intros. now apply ids_consecutive_insert.
  - intros sid q a d H. exact H.
  - split; reflexivity.
Qed.

(** X4: an interaction touches the session it works for and no other: for
    every other session, what load returns and what the chain has stored
    are what they were. *)
Theorem other_sessions_are_untouched (env : Env) (w : World) (other : string) :
  other <> active_session env w ->
  load_chat_history (db (snd (interaction env w))) other =
    load_chat_history (db w) other /\
  history_messages (db (snd (interaction env w))) other =
    history_messages (db w) other.
Proof.
  intros Hne.
  assert (E : (active_session env w =? other) = false)
    by (apply String.eqb_neq; congruence).
  destruct (interaction_db env w) as [H | [(e & _ & _ & H) | (r & _ & _ & H)]];
    rewrite H.
  - split; reflexivity.
  - split; [| reflexivity].
    apply load_insert_other. exact Hne.
  - unfold file_after_answer, file_at_invoke. split.
    + rewrite load_insert_other by exact Hne.
      rewrite load_add_messages. apply load_insert_other. exact Hne.
    + rewrite history_messages_insert, history_messages_add, history_messages_insert.
      rewrite E. apply app_nil_r.
Qed.

Lemma other_sessions_are_untouched_witness :
  load_chat_history (db (snd (interaction again_env two_sessions_world))) "session-1" =
    [("user", "Hi", "2024-01-01 00:00:00"); ("assistant", "Hello", "2024-01-01 00:00:01")] /\
  history_messages (db (snd (interaction again_env two_sessions_world))) "session-1" =
    [HumanMessage "Hi"; AIMessage "Hello"].
Proof.
  destruct (other_sessions_are_untouched again_env two_sessions_world "session-1")
    as [Hload Hhist].
  - vm_compute. discriminate.
  - rewrite Hload, Hhist. split; reflexivity.
Defined.

(** X5: as far as the script's own statements go (the database statements
    taken to succeed), an interaction ends normally or with the exception
    the model call raised on a submission: reading the two session entries
    never fails, since they are set before they are read, the template
    always formats, and a rerun never asks for another rerun. *)
Theorem only_the_model_call_raises (env : Env) (w : World) :
  fst (interaction env w) = Done tt \/
  exists e, submits env /\ llm env (sent_prompt env w) = inr e /\
            fst (interaction env w) = Raised e.
Proof.
  destruct (run_cases env w) as [Hn | Hn Hg | response Hs Hl | e Hs Hl].
  - left. now rewrite interaction_new_chat.
  - left. now rewrite interaction_idle.
  - left. now rewrite (interaction_answered env w response Hs Hl).
  - right. exists e. repeat split; try apply Hs; trivial.
    rewrite (interaction_failed env w e Hs Hl).
    now rewrite (run_script_failed env w e Hs Hl).
Qed.

Lemma active_session_known env w sid :
  session_id (session_state w) = Some sid -> active_session env w = sid.
Proof. intros H. unfold active_session. now rewrite H. Qed.

(** X6: after every interaction both session entries are set; the session
    identifier is the one New Chat drew when New Chat was pressed, and
    otherwise the identifier the session had (or the one drawn on a first
    visit). *)
Theorem session_entries_are_set (env : Env) (w : World) :
  exists ms,
    session_state (snd (interaction env w)) =
      mkSessionState
        (Some (if new_chat_button env then uuid4_new_chat env else active_session env w))
        (Some ms) /\
    (new_chat_button env = true -> ms = []) /\
    (forall sid, new_chat_button env = false ->
       session_id (session_state w) = Some sid ->
       session_id (session_state (snd (interaction env w))) = Some sid).
Proof.
  destruct (run_cases env w) as [Hn | Hn Hg | response Hs Hl | e Hs Hl].
  - rewrite interaction_new_chat by exact Hn. rewrite Hn.
    exists []. repeat split. intros sid H; congruence.
  - rewrite interaction_idle by assumption. rewrite Hn.
    exists (shown_messages env w). repeat split; [congruence |].
    intros sid _ Hsid. apply (f_equal Some (active_session_known env w sid Hsid)).
  - rewrite (interaction_answered env w response Hs Hl).
    destruct Hs as (Hn & _). rewrite Hn.
    eexists. repeat split; [congruence |].
    intros sid _ Hsid. apply (f_equal Some (active_session_known env w sid Hsid)).
  - rewrite (interaction_failed env w e Hs Hl).
    rewrite (run_script_failed env w e Hs Hl).
    destruct Hs as (Hn & _). rewrite Hn.
    eexists. repeat split; [congruence |].
    intros sid _ Hsid. apply (f_equal Some (active_session_known env w sid Hsid)).
Qed.

Lemma session_entries_are_set_witness :
  session_id (session_state
    (snd (interaction again_env (snd (interaction hi_env initial_world))))) =
  Some "session-1".
Proof.
  destruct (session_entries_are_set again_env (snd (interaction hi_env initial_world)))
    as (ms & _ & _ & Hkept).
  apply Hkept; reflexivity.
Defined.

(** X7: the model is called once in an interaction with a non-empty
    submission (New Chat not pressed), with the prompt built from the
    chain's history, and not at all in any other interaction. *)
Theorem model_is_called_on_submission_only (env : Env) (w : World) :
  llm_calls (snd (interaction env w)) =
  llm_calls w ++ (if submit_guard env then [sent_prompt env w] else []).
Proof.
  destruct (run_cases env w) as [Hn | Hn Hg | response Hs Hl | e Hs Hl].
  - rewrite interaction_new_chat by exact Hn.
    unfold submit_guard. rewrite Hn. simpl. now rewrite app_nil_r.
  - rewrite interaction_idle by assumption.
    unfold submit_guard. rewrite <- andb_assoc, Hg, andb_false_r.
    simpl. now rewrite app_nil_r.
  - rewrite (interaction_answered env w response Hs Hl).
    apply submit_guard_spec in Hs. now rewrite Hs.
  - rewrite (interaction_failed env w e Hs Hl).
    rewrite (run_script_failed env w e Hs Hl).
    apply submit_guard_spec in Hs. now rewrite Hs.
Qed.

(** X8: the prompt of the next submission of the session carries the whole
    earlier history and, behind it, the question and the answer of this
    submission when the model answered; when the model call failed, the
    question is not in it. *)
Theorem next_prompt_carries_the_exchange (env next : Env) (w : World) :
  submits env ->
  sent_prompt next (snd (interaction env w)) =
  [SystemMessage system_instruction] ++
  history_messages (db w) (active_session env w) ++
  match llm env (sent_prompt env w) with
  | inl response => [HumanMessage (user_input env); AIMessage response]
  | inr _ => []
  end ++
  [HumanMessage (user_input next)].
Proof.
  intros Hs.
  destruct (llm env (sent_prompt env w)) as [response | e] eqn:Hl.
  - rewrite (interaction_answered env w response Hs Hl).
    unfold sent_prompt, prompt_for, active_session at 1 2. simpl.
    unfold file_after_answer, file_at_invoke.
    rewrite history_messages_insert, history_messages_add, history_messages_insert.
    rewrite String.eqb_refl, <- app_assoc. reflexivity.
  - rewrite (interaction_failed env w e Hs Hl).
    rewrite (run_script_failed env w e Hs Hl).
    unfold sent_prompt, prompt_for, active_session at 1 2. simpl.
    unfold file_at_invoke. rewrite history_messages_insert. reflexivity.
Qed.

Lemma next_prompt_carries_the_exchange_witness :
  sent_prompt again_env (snd (interaction hi_env initial_world)) =
    [SystemMessage system_instruction; HumanMessage "Hi"; AIMessage "Hello";
     HumanMessage "Again"] /\
  sent_prompt again_env (snd (interaction failing_env initial_world)) =
    [SystemMessage system_instruction; HumanMessage "Again"].
Proof.
  split.
  - rewrite (next_prompt_carries_the_exchange hi_env again_env initial_world);
      [reflexivity | repeat split; discriminate].
  - rewrite (next_prompt_carries_the_exchange failing_env again_env initial_world);
      [reflexivity | repeat split; discriminate].
Defined.

(** X9: in every file the script makes out of a fresh one, what the chain
    has stored for a session is a sequence of question and answer pairs. *)
Theorem chain_history_is_made_of_exchanges (envs : list Env) (sid : string) :
  exists pairs,
    history_messages (db (snd (interactions envs initial_world))) sid =
    flat_map exchange pairs.
Proof.
  revert sid.
  apply (interactions_keep
           (fun d => forall sid, exists pairs,
                       history_messages d sid = flat_map exchange pairs)).
  - intros now s role content d H sid. rewrite history_messages_insert. apply H.
  - intros s q a d H sid. destruct (H sid) as [pairs Hp].
    rewrite history_messages_add, Hp.
    destruct (s =? sid).
    + exists (pairs ++ [(q, a)]). rewrite flat_map_app. simpl. reflexivity.
    + exists pairs. apply app_nil_r.
  - intros sid. exists []. reflexivity.
Qed.

(** * What the page shows *)

Section Page.

Lemma turn_of_selected_columns r :
  turn_role_content (selected_columns r) = row_role_content r.
Proof. reflexivity. Qed.

(** The list the chat container draws tells the turns of the session. *)
Lemma shown_messages_mirror env w :
  messages_mirror_chat w ->
  (messages (session_state w) = None ->
   Sorted timestamp_le (session_rows (db w) (active_session env w))) ->
  map turn_role_content (shown_messages env w) =
  map row_role_content (session_rows (db w) (active_session env w)).
Proof.
  intros Hmirror Hsorted. unfold shown_messages.
  destruct (messages (session_state w)) as [ms |] eqn:E.
  - destruct (Hmirror ms E) as (sid & Hsid & Hms).
    rewrite (active_session_known env w sid Hsid). exact Hms.
  - rewrite load_of_ascending_rows by (apply Hsorted; reflexivity).
    rewrite map_map. apply map_ext. intros r. apply turn_of_selected_columns.
Qed.

Lemma append_assoc (a b c : string) :
  ((a ++ b) ++ c)%string = (a ++ (b ++ c))%string.
Proof. induction a as [| x a IH]; simpl; congruence. Qed.

Lemma export_document_cons t rest :
  rest <> [] ->
  spec_export_document (t :: rest) =
  (spec_paragraph t ++ newline ++ newline ++ spec_export_document rest)%string.
Proof. destruct rest; [congruence | reflexivity]. Qed.

End Page.

(** X10: an interaction keeps the displayed conversation in step with the
    stored one: if the message list of the session tells (role and content,
    in order) the session's rows of [chat], it still does afterwards.  When
    the list is first loaded the session's timestamps must ascend, and the
    identifier New Chat draws must be a new one. *)
Theorem displayed_turns_follow_the_table (env : Env) (w : World) :
  messages_mirror_chat w ->
  (messages (session_state w) = None ->
   Sorted timestamp_le (session_rows (db w) (active_session env w))) ->
  (new_chat_button env = true -> session_rows (db w) (uuid4_new_chat env) = []) ->
  messages_mirror_chat (snd (interaction env w)).
Proof.
  intros Hmirror Hsorted Hfresh.
  pose proof (shown_messages_mirror env w Hmirror Hsorted) as Hshown.
  destruct (run_cases env w) as [Hn | Hn Hg | response Hs Hl | e Hs Hl].
  - rewrite interaction_new_chat by exact Hn.
    intros ms Hms. simpl in Hms. injection Hms as <-.
    exists (uuid4_new_chat env). split; [reflexivity |].
    simpl. now rewrite (Hfresh Hn).
  - rewrite interaction_idle by assumption.
    intros ms Hms. simpl in Hms. injection Hms as <-.
    exists (active_session env w). split; [reflexivity | exact Hshown].
  - rewrite (interaction_answered env w response Hs Hl).
    intros ms Hms. simpl in Hms. injection Hms as <-.
    exists (active_session env w). split; [reflexivity |].
    cbn [snd db]. rewrite session_rows_after_answer.
    rewrite !map_app, Hshown. rewrite <- app_assoc. reflexivity.
  - rewrite (interaction_failed env w e Hs Hl).
    rewrite (run_script_failed env w e Hs Hl).
    intros ms Hms. simpl in Hms. injection Hms as <-.
    exists (active_session env w). split; [reflexivity |].
    cbn [snd db]. unfold file_at_invoke. rewrite session_rows_insert_same.
    rewrite !map_app, Hshown. reflexivity.
Qed.

Lemma displayed_turns_follow_the_table_witness :
  messages_mirror_chat (snd (interaction hi_env initial_world)) /\
  messages_mirror_chat
    (snd (interaction new_chat_env (snd (interaction hi_env initial_world)))).
Proof.
  assert (H1 : messages_mirror_chat (snd (interaction hi_env initial_world))).
  { apply displayed_turns_follow_the_table.
    - intros ms H. discriminate.
    - intros _. constructor.
    - intros H. discriminate. }
  split; [exact H1 |].
  apply displayed_turns_follow_the_table.
  - exact H1.
  - intros H. discriminate.
  - intros _. reflexivity.
Defined.

(** X11: when an interaction ends normally, the page shows the message list
    of the session, one chat message per entry in the order of the list,
    with nothing in front of it unless Export was pressed. *)
Theorem page_shows_the_message_list (env : Env) (w : World) :
  fst (interaction env w) = Done tt ->
  exists ms front,
    messages (session_state (snd (interaction env w))) = Some ms /\
    page (snd (interaction env w)) = front ++ map element_of ms /\
    (export_button env = false -> front = []).
Proof.
  intros Hdone.
  destruct (run_cases env w) as [Hn | Hn Hg | response Hs Hl | e Hs Hl].
  - rewrite interaction_new_chat by exact Hn.
    exists [], []. repeat split.
  - rewrite interaction_idle by assumption.
    exists (shown_messages env w).
    exists (if export_button env
            then [DownloadButton "Download Chat"
                    (export_text (load_chat_history (db w) (active_session env w)))
                    ("chat_" ++ active_session env w ++ ".txt")%string "text/plain"]
            else []).
    split; [reflexivity |]. split.
    + simpl. unfold drawn_page. simpl. destruct (export_button env); reflexivity.
    + intros H. now rewrite H.
  - rewrite (interaction_answered env w response Hs Hl).
    eexists. exists []. repeat split.
  - exfalso. rewrite (interaction_failed env w e Hs Hl) in Hdone.
    rewrite (run_script_failed env w e Hs Hl) in Hdone. discriminate.
Qed.

Lemma page_shows_the_message_list_witness :
  page (snd (interaction hi_env initial_world)) =
  [ChatMessage "user" "Hi" "2024-01-01 01:00:00";
   ChatMessage "assistant" "Hello" "2024-01-01 01:00:01"].
Proof.
  destruct (page_shows_the_message_list hi_env initial_world eq_refl)
    as (ms & front & Hms & Hpage & Hfront).
  rewrite Hpage, (Hfront eq_refl).
  injection Hms as <-. reflexivity.
Defined.

(** X12: the export of no turn is the empty text, and the export of two
    non-empty runs of turns put one after the other is the export of the
    first, a blank line, the export of the second. *)
Theorem export_of_joined_turns (a b : list (string * string * string)) :
  export_text [] = "" /\
  (a <> [] -> b <> [] ->
   export_text (a ++ b) =
   (export_text a ++ newline ++ newline ++ export_text b)%string).
Proof.
  split; [reflexivity |]. intros Ha Hb.
  rewrite !export_text_document.
  induction a as [| t a IH]; [congruence |].
  destruct a as [| t' a].
  - simpl app. now rewrite export_document_cons.
  - change ((t :: t' :: a) ++ b) with (t :: ((t' :: a) ++ b)).
    rewrite export_document_cons by discriminate.
    rewrite IH by discriminate.
    rewrite (export_document_cons t (t' :: a)) by discriminate.
    rewrite !append_assoc. reflexivity.
Qed.

Lemma export_of_joined_turns_witness :
  export_text (two_turns ++ [("user", "Again", "2024-01-01 00:05:00")]) =
  (two_turns_text ++ newline ++ newline ++ "USER[2024-01-01 00:05:00]: Again")%string.
Proof.
  apply (export_of_joined_turns two_turns [("user", "Again", "2024-01-01 00:05:00")]);
    discriminate.
Defined.

(** * The title and the message bodies *)

Section Rendering.

Lemma extend_first_not_nil a parts : extend_first a parts <> [].
Proof. destruct parts; discriminate. Qed.

Lemma letters_not_nil c s : letters (String c s) <> [].
Proof.
  destruct s as [| c' s]; [discriminate |].
  cbn [letters]. destruct (continuation c');
    [apply extend_first_not_nil | discriminate].
Qed.

(** The characters of a text, put together, are the text. *)
Lemma text_of_letters s : text_of (letters s) = s.
Proof.
  induction s as [| c s IH]; [reflexivity |].
  destruct s as [| c' s]; [reflexivity |].
  change (letters (String c (String c' s)))
    with (if continuation c' then extend_first c (letters (String c' s))
          else String c EmptyString :: letters (String c' s)).
  destruct (continuation c').
  - pose proof (letters_not_nil c' s) as Hne.
    destruct (letters (String c' s)) as [| p ps]; [congruence |].
    unfold text_of in *. simpl in *. now rewrite IH.
  - unfold text_of in *. simpl in *. now rewrite IH.
Qed.

Lemma flat_map_shift {A} (f : nat -> list A) n :
  flat_map f (seq 1 n) = flat_map (fun k => f (S k)) (seq 0 n).
Proof.
  rewrite <- seq_shift. induction (seq 0 n) as [| k l IH]; simpl; congruence.
Qed.

(** The loop shows one more letter at each turn and sleeps after it. *)
Lemma animate_events theme displayed ls :
  animate theme displayed ls =
  flat_map
    (fun k => [placeholder_markdown
                 (title_html theme (displayed ++ text_of (firstn (S k) ls))%string);
               time_sleep])
    (seq 0 (length ls)).
Proof.
  revert displayed. induction ls as [| l ls IH]; intros displayed; [reflexivity |].
  cbn [animate length seq flat_map app].
  f_equal; [| f_equal].
  - unfold text_of. simpl. now rewrite append_empty_r.
  - rewrite IH, flat_map_shift.
    apply flat_map_ext. intros k.
    unfold text_of. cbn [firstn fold_right]. now rewrite append_assoc.
Qed.

Lemma title_frames_updates (h : nat -> string) l :
  title_frames (flat_map (fun k => [placeholder_markdown (h k); time_sleep]) l) =
  map h l.
Proof.
  unfold title_frames. induction l as [| k l IH]; simpl; congruence.
Qed.

Lemma split_fence_step a b c rest :
  split_fence (String a (String b (String c rest))) =
  if is_fence a b c then EmptyString :: split_fence rest
  else extend_first a (split_fence (String b (String c rest))).
Proof. reflexivity. Qed.

Lemma contains_fence_step a b c rest :
  contains_fence (String a (String b (String c rest))) =
  is_fence a b c || contains_fence (String b (String c rest)).
Proof. reflexivity. Qed.

Lemma split_fence_not_nil s : split_fence s <> [].
Proof.
  destruct s as [| a s1]; [discriminate |].
  destruct s1 as [| b [| c rest]]; try apply extend_first_not_nil.
  rewrite split_fence_step.
  destruct (is_fence a b c); [discriminate | apply extend_first_not_nil].
Qed.

Lemma concat_extend_first sep a parts :
  parts <> [] ->
  String.concat sep (extend_first a parts) = String a (String.concat sep parts).
Proof.
  destruct parts as [| p [| q ps]]; [congruence | reflexivity | reflexivity].
Qed.

Lemma concat_cons_not_nil sep p parts :
  parts <> [] ->
  String.concat sep (p :: parts) = (p ++ sep ++ String.concat sep parts)%string.
Proof. destruct parts; [congruence | reflexivity]. Qed.

Lemma is_fence_true a b c :
  is_fence a b c = true -> a = "`"%char /\ b = "`"%char /\ c = "`"%char.
Proof.
  unfold is_fence. intros H.
  apply andb_prop in H. destruct H as [H Hc].
  apply andb_prop in H. destruct H as [Ha Hb].
  apply Ascii.eqb_eq in Ha, Hb, Hc. auto.
Qed.

(** Joining the parts gives the text back. *)
Lemma split_fence_joined s : String.concat fence (split_fence s) = s.
Proof.
  assert (H : forall n s, String.length s <= n ->
                          String.concat fence (split_fence s) = s).
  { clear s. induction n as [| n IH]; intros s Hlen.
    - destruct s; [reflexivity | simpl in Hlen; lia].
    - destruct s as [| a s1]; [reflexivity |].
      simpl in Hlen.
      assert (Hplain : String.concat fence (extend_first a (split_fence s1))
                       = String a s1).
      { rewrite concat_extend_first by apply split_fence_not_nil.
        rewrite IH by lia. reflexivity. }
      destruct s1 as [| b [| c rest]]; try exact Hplain.
      rewrite split_fence_step. destruct (is_fence a b c) eqn:E; [| exact Hplain].
      apply is_fence_true in E. destruct E as (-> & -> & ->).
      rewrite concat_cons_not_nil by apply split_fence_not_nil.
      rewrite IH by (simpl in Hlen; lia). reflexivity. }
  apply (H (String.length s)). lia.
Qed.

(** Without a separator there is one part, the text. *)
Lemma split_fence_plain s : contains_fence s = false -> split_fence s = [s].
Proof.
  induction s as [| a s1 IH]; intros H; [reflexivity |].
  destruct s1 as [| b [| c rest]].
  - reflexivity.
  - reflexivity.
  - rewrite contains_fence_step in H.
    apply orb_false_iff in H. destruct H as [Hf Hc].
    rewrite split_fence_step, Hf, (IH Hc). reflexivity.
Qed.

(** The first part is the text in front of the first fence. *)
Lemma split_fence_first s p ps :
  split_fence s = p :: ps -> exists tail, s = (p ++ tail)%string.
Proof.
  intros H. pose proof (split_fence_joined s) as Hj. rewrite H in Hj.
  destruct ps as [| q ps].
  - exists EmptyString. simpl in Hj. now rewrite append_empty_r.
  - exists (fence ++ String.concat fence (q :: ps))%string.
    rewrite <- Hj. reflexivity.
Qed.

(** No part holds a fence. *)
Lemma split_fence_parts_plain s :
  Forall (fun part => contains_fence part = false) (split_fence s).
Proof.
  assert (H : forall n s, String.length s <= n ->
                Forall (fun part => contains_fence part = false) (split_fence s)).
  { clear s. induction n as [| n IH]; intros s Hlen.
    - destruct s; [repeat constructor | simpl in Hlen; lia].
    - destruct s as [| a s1]; [repeat constructor |].
      simpl in Hlen.
      assert (Hplain : forall b c rest, s1 = String b (String c rest) ->
                is_fence a b c = false ->
                Forall (fun part => contains_fence part = false)
                       (extend_first a (split_fence s1))).
      { intros b c rest Es1 Hf.
        pose proof (IH s1 ltac:(lia)) as Hparts.
        destruct (split_fence s1) as [| p ps] eqn:Esplit;
          [now apply split_fence_not_nil in Esplit |].
        apply Forall_cons_iff in Hparts. destruct Hparts as [Hp Hps].
        simpl. constructor; [| exact Hps].
        destruct (split_fence_first s1 p ps Esplit) as [tail Htail].
        rewrite Es1 in Htail.
        destruct p as [| b' [| c' p2]]; try reflexivity.
        simpl in Htail. injection Htail as Hb Hc _. subst b' c'.
        rewrite contains_fence_step, Hf. exact Hp. }
      destruct s1 as [| b [| c rest]].
      + repeat constructor.
      + repeat constructor.
      + rewrite split_fence_step. destruct (is_fence a b c) eqn:E.
        * constructor; [reflexivity |]. apply IH. simpl in Hlen. lia.
        * apply (Hplain b c rest eq_refl E). }
  apply (H (String.length s)). lia.
Qed.

Lemma show_parts_nth k parts i part :
  nth_error parts i = Some part ->
  nth_error (show_parts k parts) i =
  Some (if Nat.eqb (Nat.modulo (k + i) 2) 0
        then st_markdown part false else code_block part).
Proof.
  revert k i. induction parts as [| p parts IH]; intros k i H.
  - destruct i; discriminate.
  - destruct i as [| i]; simpl in H.
    + injection H as ->. simpl. rewrite Nat.add_0_r. reflexivity.
    + simpl. rewrite (IH (S k) i H). now rewrite Nat.add_succ_r.
Qed.

Lemma show_parts_length k parts : length (show_parts k parts) = length parts.
Proof.
  revert k. induction parts as [| p parts IH]; intros k; simpl; auto.
Qed.

End Rendering.

(** X13: [animated_text] does, for each character of the text in turn, one
    update of the placeholder followed by one sleep, and nothing else; the
    k-th update shows the first k characters, so a non-empty text ends fully
    shown, and for the empty text nothing is drawn at all. *)
Theorem animated_text_shows_growing_prefixes (theme text : string) :
  animated_text theme text =
    flat_map
      (fun k => [placeholder_markdown
                   (title_html theme (text_of (firstn (S k) (letters text))));
                 time_sleep])
      (seq 0 (length (letters text))) /\
  text_of (letters text) = text /\
  (text <> "" ->
   last (title_frames (animated_text theme text)) "" = title_html theme text) /\
  animated_text theme "" = [].
Proof.
  assert (Hevents :
    animated_text theme text =
    flat_map
      (fun k => [placeholder_markdown
                   (title_html theme (text_of (firstn (S k) (letters text))));
                 time_sleep])
      (seq 0 (length (letters text)))).
  { unfold animated_text. apply animate_events. }
  split; [exact Hevents |].
  split; [apply text_of_letters |].
  split; [| reflexivity].
  intros Hne. rewrite Hevents.
  rewrite (title_frames_updates
             (fun k => title_html theme (text_of (firstn (S k) (letters text))))).
  destruct text as [| c text]; [congruence |].
  pose proof (letters_not_nil c text) as Hl.
  destruct (length (letters (String c text))) as [| n] eqn:En.
  - destruct (letters (String c text)); [congruence | discriminate].
  - rewrite seq_S, map_app. cbn [map]. rewrite last_snoc. rewrite Nat.add_0_l.
    rewrite <- En, firstn_all, text_of_letters. reflexivity.
Qed.

Lemma animated_text_shows_growing_prefixes_witness :
  last (title_frames (animated_text "Dark" "Data Science Tutor AI")) "" =
    title_html "Dark" "Data Science Tutor AI" /\
  length (animated_text "Light" ("go " ++ rocket)) = 8.
Proof.
  split; [| reflexivity].
  apply (animated_text_shows_growing_prefixes "Dark" "Data Science Tutor AI").
  discriminate.
Defined.

(** X14: the body of a chat message is made of the parts [split] cuts the
    content into at its code fences, in order, and the timestamp behind
    them: a part at an even place is drawn as plain markdown, a part at an
    odd place as a code block, whether the fences are paired or not; no part
    holds a fence, the parts joined by the fence give the content back, and
    a content without a fence is drawn as one plain markdown. *)
Theorem message_body_follows_the_fences (content timestamp : string) :
  chat_message_body content timestamp =
    show_parts 0 (split_fence content) ++ [timestamp_block timestamp] /\
  String.concat fence (split_fence content) = content /\
  Forall (fun part => contains_fence part = false) (split_fence content) /\
  (forall i part,
     nth_error (split_fence content) i = Some part ->
     nth_error (chat_message_body content timestamp) i =
     Some (if Nat.eqb (Nat.modulo i 2) 0
           then st_markdown part false else code_block part)) /\
  (contains_fence content = false ->
   chat_message_body content timestamp =
   [st_markdown content false; timestamp_block timestamp]).
Proof.
  assert (Hbody : chat_message_body content timestamp =
                  show_parts 0 (split_fence content) ++ [timestamp_block timestamp]).
  { unfold chat_message_body.
    destruct (contains_fence content) eqn:E; [reflexivity |].
    rewrite (split_fence_plain content E). reflexivity. }
  split; [exact Hbody |].
  split; [apply split_fence_joined |].
  split; [apply split_fence_parts_plain |].
  split.
  - intros i part Hi. rewrite Hbody.
    rewrite nth_error_app1.
    + apply (show_parts_nth 0 _ i part Hi).
    + rewrite show_parts_length. apply nth_error_Some. congruence.
  - intros E. unfold chat_message_body. rewrite E. reflexivity.
Qed.

Lemma message_body_follows_the_fences_witness :
  chat_message_body "Use this:```print(1)```Done" "12:00" =
  [st_markdown "Use this:" false; code_block "print(1)"; st_markdown "Done" false;
   timestamp_block "12:00"] /\
  chat_message_body "No code here" "12:01" =
  [st_markdown "No code here" false; timestamp_block "12:01"].
Proof.
  destruct (message_body_follows_the_fences "No code here" "12:01")
    as (_ & _ & _ & _ & Hplain).
  split; [reflexivity | apply Hplain; reflexivity].
Defined.

(** * Saving under a steady clock, refreshing, and what is never undone *)

(** X15: when the new timestamp is not earlier than any timestamp of the
    session, [save_message] puts the new turn at the end of what load
    returns; when it is earlier than all of them (the clock was set back),
    the new turn is loaded first. *)
Theorem save_message_extends_load (d : Db) (now sid role content : string) :
  ((forall r, In r (session_rows d sid) -> String.leb (row_timestamp r) now = true) ->
   load_chat_history (insert_chat now sid role content d) sid =
   load_chat_history d sid ++ [(role, content, now)]) /\
  ((forall r, In r (session_rows d sid) -> String.leb (row_timestamp r) now = false) ->
   load_chat_history (insert_chat now sid role content d) sid =
   (role, content, now) :: load_chat_history d sid).
Proof.
  assert (Hin : forall r, In r (select_chat d sid) -> In r (session_rows d sid)).
  { intros r Hr. unfold select_chat in Hr. fold (session_rows d sid) in Hr.
    exact (proj1 (order_by_timestamp_In _ r) Hr). }
  split; intros Hall; unfold load_chat_history; rewrite select_chat_insert_same.
  - rewrite filter_all, filter_none.
    + rewrite map_app. reflexivity.
    + intros r Hr. unfold not_later. now rewrite (Hall r (Hin r Hr)).
    + apply Forall_forall. intros r Hr. apply (Hall r (Hin r Hr)).
  - rewrite filter_none, filter_all.
    + reflexivity.
    + apply Forall_forall. intros r Hr. unfold not_later.
      now rewrite (Hall r (Hin r Hr)).
    + intros r Hr. apply (Hall r (Hin r Hr)).
Qed.

Lemma save_message_extends_load_witness :
  load_chat_history
    (insert_chat "2024-01-01 00:05:00" "s" "user" "Again"
       (append_turns "s" two_turns empty_db)) "s" =
    two_turns ++ [("user", "Again", "2024-01-01 00:05:00")] /\
  load_chat_history
    (insert_chat "2023-12-31 23:59:59" "s" "user" "Again"
       (append_turns "s" two_turns empty_db)) "s" =
    ("user", "Again", "2023-12-31 23:59:59") :: two_turns.
Proof.
  split.
  - apply (save_message_extends_load (append_turns "s" two_turns empty_db)
             "2024-01-01 00:05:00" "s" "user" "Again").
    intros r Hr. vm_compute in Hr.
    repeat (destruct Hr as [<- | Hr]; [reflexivity |]). destruct Hr.
  - apply (save_message_extends_load (append_turns "s" two_turns empty_db)
             "2023-12-31 23:59:59" "s" "user" "Again").
    intros r Hr. vm_compute in Hr.
    repeat (destruct Hr as [<- | Hr]; [reflexivity |]). destruct Hr.
Defined.

(** X16: a run in which nothing is submitted and New Chat is not pressed
    changes nothing that the next such run would not produce again: doing
    the same interaction twice leaves what doing it once leaves. *)
Theorem idle_interaction_is_idempotent (env : Env) (w : World) :
  new_chat_button env = false ->
  submit_button env && truthy (user_input env) = false ->
  interaction env (snd (interaction env w)) = interaction env w.
Proof.
  intros Hn Hg. rewrite !interaction_idle by assumption. reflexivity.
Qed.

Lemma idle_interaction_is_idempotent_witness :
  interaction empty_env (snd (interaction empty_env two_turns_world)) =
  interaction empty_env two_turns_world.
Proof.
  apply idle_interaction_is_idempotent; reflexivity.
Defined.

(** X17: no sequence of interactions changes or removes a stored row: the
    table [chat] and the chain's table afterwards are the tables before,
    with rows added at their ends. *)
Theorem stored_rows_are_only_added (envs : list Env) (w : World) :
  exists rows stored,
    chat (db (snd (interactions envs w))) = chat (db w) ++ rows /\
    message_store (db (snd (interactions envs w))) = message_store (db w) ++ stored.
Proof.
  revert w. induction envs as [| env envs IH]; intros w; simpl.
  - exists [], []. now rewrite !app_nil_r.
  - assert (H1 : exists rows stored,
               chat (db (snd (interaction env w))) = chat (db w) ++ rows /\
               message_store (db (snd (interaction env w))) =
               message_store (db w) ++ stored).
    { destruct (interaction_db env w) as [E | [(e & _ & _ & E) | (r & _ & _ & E)]];
        rewrite E.
      - exists [], []. now rewrite !app_nil_r.
      - exists [user_row env w], []. split; [reflexivity | now rewrite app_nil_r].
      - exists [user_row env w; assistant_row env w r].
        exists (map (mkStoredMessage (active_session env w))
                    [HumanMessage (user_input env); AIMessage r]).
        split; [| reflexivity].
        simpl. rewrite <- app_assoc. reflexivity. }
    destruct (interaction env w) as [o w1]. simpl in H1.
    destruct H1 as (rows1 & stored1 & Hc1 & Hm1).
    destruct (IH w1) as (rows2 & stored2 & Hc2 & Hm2).
    destruct (interactions envs w1) as [os w2]. simpl in *.
    exists (rows1 ++ rows2), (stored1 ++ stored2).
    rewrite Hc2, Hm2, Hc1, Hm1, <- !app_assoc. split; reflexivity.
Qed.

(** * The order of the loaded turns, the export and the reset *)

Section LoadedTurns.

Lemma Sorted_map {A B} (f : A -> B) (R : B -> B -> Prop) l :
  Sorted (fun a b => R (f a) (f b)) l -> Sorted R (map f l).
Proof.
  induction 1 as [| x l Hs IH Hd]; simpl; constructor; trivial.
  destruct Hd; simpl; constructor. assumption.
Qed.


(** A session that holds the two turns of the example, in whatever order
    they lie in the table, loads them with the earlier one first. *)
Lemma load_of_two_turns d sid :
  Permutation (map selected_columns (session_rows d sid)) two_turns ->
  load_chat_history d sid = two_turns.
Proof.
  intros Hperm. unfold load_chat_history, select_chat. fold (session_rows d sid).
  pose proof (Permutation_length Hperm) as Hlen. rewrite length_map in Hlen.
  destruct (session_rows d sid) as [| r1 [| r2 [| r3 rows]]]; try discriminate.
  apply Permutation_sym, Permutation_length_2_inv in Hperm.
  destruct r1 as [i1 s1 ro1 c1 t1], r2 as [i2 s2 ro2 c2 t2].
  destruct Hperm as [H | H]; unfold two_turns, selected_columns in H; simpl in H;
    injection H; intros; subst; reflexivity.
Qed.

End LoadedTurns.

(** C3, as stated, fails: of two turns appended one after the other, the
    second stamped by a clock that was set back, load returns the second
    first. *)
Lemma load_order_follows_the_clock :
  ~ (forall d sid turns,
       (forall r, In r (chat d) -> row_session_id r <> sid) ->
       length (load_chat_history (append_turns sid turns d) sid) = length turns /\
       map turn_role_content (load_chat_history (append_turns sid turns d) sid) =
       map turn_role_content turns).
Proof.
  intros H. destruct (H empty_db "s" set_back_turns) as [_ Horder].
  - intros r [].
  - vm_compute in Horder. discriminate.
Qed.

(** C3, amended: after N sequential appends to a session that held no turn,
    load returns N rows, the appended turns each once with the role, the
    content and the timestamp it was written with, in ascending order of
    timestamp; this is the append order when the timestamps the store
    assigned do not decrease. *)
Theorem load_returns_appended_turns
  (d : Db) (sid : string) (turns : list (string * string * string)) :
  (forall r, In r (chat d) -> row_session_id r <> sid) ->
  length (load_chat_history (append_turns sid turns d) sid) = length turns /\
  Permutation (load_chat_history (append_turns sid turns d) sid) turns /\
  StronglySorted
    (fun a b => String.leb (turn_timestamp a) (turn_timestamp b) = true)
    (load_chat_history (append_turns sid turns d) sid) /\
  (Sorted (fun a b => String.leb (turn_timestamp a) (turn_timestamp b) = true) turns ->
   load_chat_history (append_turns sid turns d) sid = turns).
Proof.
  intros Hnone.
  destruct (select_after_appends d sid turns Hnone) as (rows & Hsel & Hm).
  unfold load_chat_history. rewrite Hsel.
  split; [| split; [| split]].
  - rewrite length_map, order_by_timestamp_length, <- Hm, length_map. reflexivity.
  - rewrite <- Hm. apply Permutation_map, order_by_timestamp_perm.
  - apply Sorted_StronglySorted.
    + intros a b c. apply leb_trans.
    + apply Sorted_map. apply (order_by_timestamp_ascends rows).
  - intros Hsorted. rewrite order_by_timestamp_ascending; [exact Hm |].
    rewrite <- Hm in Hsorted. apply Sorted_map_inv in Hsorted. exact Hsorted.
Qed.

Lemma load_returns_appended_turns_witness :
  load_chat_history (append_turns "s" two_turns empty_db) "s" = two_turns /\
  Permutation (load_chat_history (append_turns "s" set_back_turns empty_db) "s")
              set_back_turns /\
  load_chat_history (append_turns "s" set_back_turns empty_db) "s" =
    [("assistant", "b", "2024-01-01 00:00:00"); ("user", "a", "2024-01-01 00:00:05")].
Proof.
  destruct (load_returns_appended_turns empty_db "s" two_turns) as (_ & _ & _ & Hord).
  { intros r []. }
  destruct (load_returns_appended_turns empty_db "s" set_back_turns)
    as (_ & Hperm & _ & _).
  { intros r []. }
  split; [apply Hord; repeat constructor |].
  split; [exact Hperm | reflexivity].
Defined.

(** C5: the export button offers for download the document that has one
    paragraph [ROLE[timestamp]: content] per stored turn of the session,
    each turn once, in ascending order of timestamp, with a blank line
    between two turns; for a session that holds the two turns of the
    example, in whatever order they lie in the table, it is the text of the
    example. *)
Theorem export_chat_document (w : World) (sid : string) :
  session_id (session_state w) = Some sid ->
  exists data rows,
    export_chat w =
      (Done tt,
       mkWorld (db w) (session_state w)
               (page w ++ [DownloadButton "Download Chat" data
                             ("chat_" ++ sid ++ ".txt")%string "text/plain"])
               (llm_calls w)) /\
    Permutation rows (session_rows (db w) sid) /\
    StronglySorted timestamp_le rows /\
    map selected_columns rows = load_chat_history (db w) sid /\
    data = spec_export_document (map selected_columns rows) /\
    (Permutation (map selected_columns (session_rows (db w) sid)) two_turns ->
     data = two_turns_text).
Proof.
  intros Hsid.
  exists (export_text (load_chat_history (db w) sid)), (select_chat (db w) sid).
  split; [| split; [| split; [| split; [| split]]]].
  - unfold export_chat, current_session_id, bind, get_session_state, get_db, show, ret.
    rewrite Hsid. reflexivity.
  - apply order_by_timestamp_perm.
  - apply Sorted_StronglySorted.
    + intros a b c. apply timestamp_le_trans.
    + apply order_by_timestamp_ascends.
  - reflexivity.
  - apply export_text_document.
  - intros Hperm. rewrite (load_of_two_turns (db w) sid Hperm). reflexivity.
Qed.

Lemma export_chat_document_witness :
  export_chat later_first_world =
  (Done tt,
   mkWorld (db later_first_world) (session_state later_first_world)
           [DownloadButton "Download Chat" two_turns_text "chat_s.txt" "text/plain"]
           []).
Proof.
  destruct (export_chat_document later_first_world "s" eq_refl)
    as (data & rows & Hrun & _ & _ & _ & _ & Hdata).
  rewrite Hrun. rewrite Hdata; [reflexivity |].
  vm_compute. apply perm_swap.
Defined.



